(** * Snowflake schema-evolution chatbot: schema utilities, retrieval and
      generation back ends

    A shallow embedding of [schema_utils.py], [embedding_utils.py],
    [llm_utils.py] and [chatbot.py], with the properties their design
    description states about them.

    Conventions of the embedding.
    - A Python [str] is a Rocq [string], one [ascii] per character.  Python
      orders strings lexicographically by code point; [String.le] of stdpp
      (built on [String.leb]) is the same order on these strings.
    - A Python [dict] of column names to type labels is an association list in
      insertion order; a well-formed dictionary has no repeated key.
    - A Python [set] of strings is a [gset string].  Python iterates a set in
      an order fixed by hash values; [elements] stands for that order, and
      [compare_schemas_iteration_order] shows that the result of the
      comparison does not depend on it.
    - A raised exception is a value of type [exn]; a function that may raise
      returns a [result]. *)

From Stdlib Require Import Ascii.
From stdpp Require Import base list sets gmap strings sorting pretty.


(** ** Python strings *)

Module PyStr.

(** [s.startswith(p)] *)
Fixpoint startswith (p s : string) : bool :=
  match p, s with
  | EmptyString, _ => true
  | String _ _, EmptyString => false
  | String a p', String b s' => if decide (a = b) then startswith p' s' else false
  end.

(** [needle in hay]: the substring test of Python, case-sensitive. *)
Fixpoint contains (needle hay : string) : bool :=
  startswith needle hay ||
  match hay with
  | EmptyString => false
  | String _ hay' => contains needle hay'
  end.

(** The mathematical notion [contains] decides. *)
Definition substring (needle hay : string) : Prop :=
  ∃ pre post, hay = pre +:+ needle +:+ post.

(** [c.lower()] on one ASCII letter. *)
Definition lower_char (c : ascii) : ascii :=
  let n := nat_of_ascii c in
  if decide (65 ≤ n ≤ 90) then ascii_of_nat (n + 32) else c.

(** [s.lower()] *)
Fixpoint lower (s : string) : string :=
  match s with
  | EmptyString => EmptyString
  | String c s' => String (lower_char c) (lower s')
  end.

(** [sorted(l)] on a list of strings. *)
Definition sorted (l : list string) : list string := merge_sort String.le l.

(** [sep.join(l)] *)
Fixpoint join (sep : string) (l : list string) : string :=
  match l with
  | [] => ""
  | [x] => x
  | x :: l' => x +:+ sep +:+ join sep l'
  end.

(** [s[:n]] for a non-negative [n] *)
Fixpoint take_prefix (n : nat) (s : string) : string :=
  match n, s with
  | O, _ => ""
  | S _, EmptyString => ""
  | S n', String c s' => String c (take_prefix n' s')
  end.

(** The newline character of the triple-quoted templates. *)
Definition nl : string := String (ascii_of_nat 10) EmptyString.

(** The characters [str.strip()] removes: the white space of Python among the
    first 256 code points. *)
Definition is_space (c : ascii) : bool :=
  let n := nat_of_ascii c in
  bool_decide (9 ≤ n ≤ 13 ∨ 28 ≤ n ≤ 32 ∨ n = 133 ∨ n = 160)%nat.

(** [s.lstrip()] *)
Fixpoint lstrip (s : string) : string :=
  match s with
  | EmptyString => EmptyString
  | String c s' => if is_space c then lstrip s' else s
  end.

(** [s.rstrip()] *)
Fixpoint rstrip (s : string) : string :=
  match s with
  | EmptyString => EmptyString
  | String c s' =>
      match rstrip s' with
      | EmptyString => if is_space c then EmptyString else String c EmptyString
      | r => String c r
      end
  end.

(** [s.strip()] *)
Definition strip (s : string) : string := lstrip (rstrip s).

(** [s[n:]] for a non-negative [n] *)
Fixpoint drop_prefix (n : nat) (s : string) : string :=
  match n, s with
  | O, _ => s
  | S _, EmptyString => EmptyString
  | S n', String _ s' => drop_prefix n' s'
  end.

End PyStr.

(** ** Exceptions *)

(** The exceptions the modelled code can raise or let through. *)
Inductive exn : Type :=
  | AttributeError
  | TypeError
  | KeyError
  | IndexError
  | HTTPError
  | ConnectionError
  | JSONDecodeError
  | RuntimeError (msg : string).

(** The outcome of a call: a returned value or a raised exception. *)
Inductive result (A : Type) : Type :=
  | Ok (a : A)
  | Raise (e : exn).
Arguments Ok {A} a.
Arguments Raise {A} e.

Definition is_ok {A} (r : result A) : bool :=
  match r with Ok _ => true | Raise _ => false end.

(** Sequencing of calls that may raise. *)
Definition result_bind {A B} (f : A → result B) (r : result A) : result B :=
  match r with
  | Ok a => f a
  | Raise e => Raise e
  end.

Global Instance result_ret : MRet result := λ A a, Ok a.
Global Instance result_mbind : MBind result := λ A B f r, result_bind f r.

(** A list comprehension [[f x for x in l]] whose body may raise: the first
    exception ends it. *)
Fixpoint comprehension {A B} (f : A → result B) (l : list A) : result (list B) :=
  match l with
  | [] => Ok []
  | x :: l' =>
      match f x with
      | Ok y =>
          match comprehension f l' with
          | Ok ys => Ok (y :: ys)
          | Raise e => Raise e
          end
      | Raise e => Raise e
      end
  end.

(** ** schema_utils.py *)

Module SchemaUtils.
Import PyStr.

(** [Dict[str, str]]: column name to type label, in insertion order. *)
Definition dict : Type := list (string * string).

(** A Python dictionary holds each key once. *)
Definition dict_wf (d : dict) : Prop := NoDup d.*1.

(** [d[k]]; [None] stands for [KeyError]. *)
Fixpoint dict_get (d : dict) (k : string) : option string :=
  match d with
  | [] => None
  | (k', v) :: d' => if decide (k' = k) then Some v else dict_get d' k
  end.

(** [d[k] = v]: an existing key keeps its position, a new key goes last. *)
Fixpoint dict_set (d : dict) (k v : string) : dict :=
  match d with
  | [] => [(k, v)]
  | (k', v') :: d' =>
      if decide (k' = k) then (k, v) :: d' else (k', v') :: dict_set d' k v
  end.

(** [set(d)]: the set of keys of a dictionary. *)
Definition key_set (d : dict) : gset string := list_to_set d.*1.

(** A data frame as [infer_schema_from_df] sees it: the column labels in
    order, each with [str] of the dtype of its column. *)
Definition DataFrame : Type := list (string * string).

Section frames.
(** [str] of a data frame, the table it prints; left abstract. *)
Variable frame_str : list (string * string) → string.

(** [str(df[col].dtype)].  A label the frame does not have raises
    [KeyError].  With a repeated label [df[col]] is the frame of the columns
    that carry it: a frame has no attribute [dtype], and pandas then looks
    for a column of that name, which this frame has exactly when the label
    is [dtype]; the value is then the frame itself. *)
Definition column_dtype (df : DataFrame) (col : string) : result string :=
  match filter (λ c, c.1 = col) (df : list (string * string)) with
  | [] => Raise KeyError
  | [c] => Ok c.2
  | columns =>
      if decide (col = "dtype") then Ok (frame_str columns)
      else Raise AttributeError
  end.

(** The [if]/[elif] chain of [infer_schema_from_df] (lines 18 to 27), as a
    function of the dtype string. *)
Definition normalize (dtype : string) : string :=
  if contains "int" dtype then "INTEGER"
  else if contains "float" dtype then "FLOAT"
  else if contains "bool" dtype then "BOOLEAN"
  else if contains "datetime" dtype || contains "date" dtype then "TIMESTAMP"
  else "VARCHAR".

(** The loop of [infer_schema_from_df] over [df.columns]. *)
Fixpoint infer_loop (df : DataFrame) (cols : list string) (schema : dict)
  : result dict :=
  match cols with
  | [] => Ok schema
  | col :: cols' =>
      match column_dtype df col with
      | Ok dtype => infer_loop df cols' (dict_set schema col (normalize dtype))
      | Raise e => Raise e
      end
  end.

Definition infer_schema_from_df (df : DataFrame) : result dict :=
  infer_loop df df.*1 [].
End frames.

(** The five labels [infer_schema_from_df] can write. *)
Definition canonical_labels : list string :=
  ["INTEGER"; "FLOAT"; "BOOLEAN"; "TIMESTAMP"; "VARCHAR"].

(** The rule of the design description, which tests the lower-cased
    descriptor: the case-insensitive reading of the same chain. *)
Definition normalize_caseless (dtype : string) : string :=
  normalize (lower dtype).

(** The body of the [for] loop of [compare_schemas]:
    [if existing[col] != new[col]: conflicts.append(col)]. *)
Definition conflict_step (existing new : dict) (conflicts : list string)
    (col : string) : list string :=
  if decide (dict_get existing col = dict_get new col)
  then conflicts else conflicts ++ [col].

Definition compare_schemas (existing new : dict)
  : list string * list string * list string :=
  let new_cols := sorted (elements (key_set new ∖ key_set existing)) in
  let missing_cols := sorted (elements (key_set existing ∖ key_set new)) in
  let conflicts :=
    foldl (conflict_step existing new) []
          (elements (key_set existing ∩ key_set new)) in
  let conflicts := sorted conflicts in
  (new_cols, missing_cols, conflicts).

(** The three components of the tuple [compare_schemas] returns. *)
Definition added (r : list string * list string * list string) := r.1.1.
Definition removed (r : list string * list string * list string) := r.1.2.
Definition conflicts (r : list string * list string * list string) := r.2.

(** [compare_schemas] with the three sets iterated in given orders
    [it_new], [it_missing] and [it_common] instead of [elements]. *)
Definition compare_schemas_iterating (it_new it_missing it_common : list string)
    (existing new : dict) : list string * list string * list string :=
  (sorted it_new, sorted it_missing,
   sorted (foldl (conflict_step existing new) [] it_common)).

End SchemaUtils.

(** ** embedding_utils.py *)

Module EmbeddingUtils.

Section backend.
(** A row of an embedding matrix, and a similarity score.  The arithmetic of
    NumPy is not modelled: [dot] is whatever [np.dot] computes on two rows
    and [sle] is the order [<=] of the scores. *)
Context {vec score : Type}.
Variable dot : vec → vec → score.
Variable sle : score → score → bool.
(** [np.argsort(sims)] with the default kind, which is not stable: NumPy
    documents that the result holds the indices that sort the array, and
    nothing about the order of equal items. *)
Variable argsort : list score → list nat.
(** [_load_model().encode(texts, normalize_embeddings=True)]: the rows for
    the texts, or the exception the back end raises. *)
Variable encode : list string → result (list vec).

Definition embed_texts (texts : list string) : result (list vec) :=
  encode texts.

(** [np.dot(doc_vecs, query_vec)] for [doc_vecs] of shape (N, d). *)
Definition cosine_similarity_matrix (query_vec : vec) (doc_vecs : list vec)
  : list score :=
  (λ d, dot d query_vec) <$> doc_vecs.

(** What NumPy documents of [argsort]: its result lists the indices of some
    arrangement of the pairs (index, score) of the array that is ascending
    in score. *)
Definition ascending_argsort : Prop :=
  ∀ sims, ∃ sorted : list (nat * score),
    sorted ≡ₚ zip (seq 0 (length sims)) sims ∧
    StronglySorted (λ p q, sle p.2 q.2 = true) sorted ∧
    argsort sims = sorted.*1.

(** Insertion of an (index, score) pair before the first pair whose score
    is not smaller. *)
Fixpoint insert_pair (p : nat * score) (l : list (nat * score))
  : list (nat * score) :=
  match l with
  | [] => [p]
  | q :: l' => if sle p.2 q.2 then p :: q :: l' else q :: insert_pair p l'
  end.

(** Insertion sort of (index, score) pairs by score. *)
Definition sort_pairs (l : list (nat * score)) : list (nat * score) :=
  foldr insert_pair [] l.

(** An [argsort] that meets [ascending_argsort]: insertion sort, which keeps
    equal scores in index order.  The concrete runs use it. *)
Definition insertion_argsort (sims : list score) : list nat :=
  (sort_pairs (zip (seq 0 (length sims)) sims)).*1.

(** [a[start:]] with Python's treatment of a negative or too large
    [start]. *)
Definition slice_from {A} (start : Z) (a : list A) : list A :=
  let n := Z.of_nat (length a) in
  let s := if decide (start < 0)%Z then Z.max (n + start) 0 else Z.min start n in
  drop (Z.to_nat s) a.

(** [sims[i]]; an index out of range raises. *)
Definition item (sims : list score) (i : nat) : result (nat * score) :=
  match sims !! i with
  | Some s => Ok (i, s)
  | None => Raise IndexError
  end.

Definition top_k_similar (query : string) (corpus_texts : list string)
    (corpus_vecs : list vec) (k : Z) : result (list (nat * score)) :=
  match encode [query] with
  | Raise e => Raise e
  | Ok [] => Raise IndexError
  | Ok (qv :: _) =>
      let sims := cosine_similarity_matrix qv corpus_vecs in
      let idx := reverse (slice_from (- k) (argsort sims)) in
      comprehension (item sims) idx
  end.

(** [p] may stand before [q] in ascending order of score, equal scores in
    index order. *)
Definition before_ascending (p q : nat * score) : Prop :=
  sle p.2 q.2 = true ∧ (sle q.2 p.2 = true → p.1 < q.1).

(** [p] may stand before [q] in descending order of score. *)
Definition before_descending (p q : nat * score) : Prop :=
  sle q.2 p.2 = true.
End backend.

(** A back end over integer vectors, for concrete runs: the dot product, and
    insertion sort as its [argsort]. *)
Definition int_dot (d q : list Z) : Z := foldr Z.add 0%Z (zip_with Z.mul d q).

Definition int_argsort : list Z → list nat := insertion_argsort Z.leb.

End EmbeddingUtils.

(** ** llm_utils.py *)

Module LlmUtils.

(** A JSON value as [requests] hands it over.  Of a number only its being
    zero is ever observed. *)
#[local] Unset Elimination Schemes.
Inductive json : Type :=
  | JNull
  | JBool (b : bool)
  | JNum (z : Z)
  | JStr (s : string)
  | JArr (l : list json)
  | JObj (o : list (string * json)).
#[local] Set Elimination Schemes.

(** What [requests.post] is given and what it returns.  [body] is [None]
    when the response text is not JSON. *)
Record request : Type := Request {
  url : string;
  headers : list (string * string);
  payload : json
}.

Record response : Type := Response {
  status_code : Z;
  body : option json
}.

(** The module-level settings read through [_DEF]. *)
Record config : Type := Config {
  LLM_PROVIDER : string;
  OLLAMA_HOST : string;
  OLLAMA_MODEL : string;
  LLM_ENDPOINT : string;
  LLM_API_KEY : string
}.

(** The settings when neither a secret nor an environment variable is set. *)
Definition default_config : config :=
  Config "ollama" "http://localhost:11434" "llama3.1:8b" "" "".

Definition SYSTEM_INSTRUCTIONS : string :=
  "You are a Snowflake schema evolution assistant. Be concise, precise, and include runnable SQL when asked.".

(** [k in o] and [o[k]] on a parsed object. *)
Fixpoint obj_get (o : list (string * json)) (k : string) : option json :=
  match o with
  | [] => None
  | (k', v) :: o' => if decide (k' = k) then Some v else obj_get o' k
  end.

(** [j.get(k, default)]: only a [dict] has the method. *)
Definition py_get (j : json) (k : string) (default : json) : result json :=
  match j with
  | JObj o => Ok (from_option id default (obj_get o k))
  | _ => Raise AttributeError
  end.

(** Truth value of a JSON value in an [if]. *)
Definition truthy (j : json) : bool :=
  match j with
  | JNull => false
  | JBool b => b
  | JNum z => negb (z =? 0)%Z
  | JStr s => negb (String.eqb s "")
  | JArr l => match l with [] => false | _ => true end
  | JObj o => match o with [] => false | _ => true end
  end.

(** [j[0]] *)
Definition first_item (j : json) : result json :=
  match j with
  | JArr (x :: _) => Ok x
  | JArr [] => Raise IndexError
  | JStr (String c _) => Ok (JStr (String c EmptyString))
  | JStr EmptyString => Raise IndexError
  | JObj _ => Raise KeyError
  | _ => Raise TypeError
  end.

(** [''.join(items)]: every item has to be a [str]. *)
Fixpoint join_text (items : list json) : result string :=
  match items with
  | [] => Ok ""
  | JStr s :: items' =>
      match join_text items' with
      | Ok t => Ok (s +:+ t)
      | Raise e => Raise e
      end
  | _ :: _ => Raise TypeError
  end.

(** [r.raise_for_status()]: an error status is one from 400 to 599. *)
Definition raise_for_status (r : response) : result unit :=
  if decide (400 ≤ status_code r < 600)%Z then Raise HTTPError else Ok ().

(** [r.json()] *)
Definition response_json (r : response) : result json :=
  match body r with
  | Some j => Ok j
  | None => Raise JSONDecodeError
  end.

Section transport.
Variable cfg : config.
(** [requests.post(url, headers=..., json=..., timeout=120)]: the response,
    or the exception of a failed or timed-out connection. *)
Variable post : request → result response.

Definition _chat_ollama (messages : json) : result json :=
  let url := OLLAMA_HOST cfg +:+ "/api/chat" in
  let payload := JObj [("model", JStr (OLLAMA_MODEL cfg));
                       ("messages", messages);
                       ("stream", JBool false)] in
  r ← post (Request url [] payload);
  _ ← raise_for_status r;
  data ← response_json r;
  match data with
  | JObj o =>
      match obj_get o "message" with
      | Some m => py_get m "content" (JStr "")
      | None => Ok (JStr "")
      end
  | JArr chunks =>
      parts ← comprehension
                (λ chunk, m ← py_get chunk "message" (JObj []);
                          py_get m "content" (JStr "")) chunks;
      text ← join_text parts;
      Ok (JStr text)
  | _ => Ok (JStr "")
  end.

Definition _chat_remote (messages : json) : result json :=
  let headers := [("Content-Type", "application/json")] in
  let headers :=
    if String.eqb (LLM_API_KEY cfg) "" then headers
    else headers ++ [("Authorization", "Bearer " +:+ LLM_API_KEY cfg)] in
  let payload := JObj [("messages", messages); ("stream", JBool false)] in
  r ← post (Request (LLM_ENDPOINT cfg) headers payload);
  _ ← raise_for_status r;
  data ← response_json r;
  match data with
  | JObj o =>
      match obj_get o "text" with
      | Some t => Ok t
      | None =>
          match obj_get o "choices" with
          | Some choices =>
              if truthy choices then
                c ← first_item choices;
                m ← py_get c "message" (JObj []);
                py_get m "content" (JStr "")
              else Ok (JStr "")
          | None => Ok (JStr "")
          end
      end
  | _ => Ok (JStr "")
  end.

Definition chat_messages (user_prompt system_instructions : string) : json :=
  JArr [JObj [("role", JStr "system"); ("content", JStr system_instructions)];
        JObj [("role", JStr "user"); ("content", JStr user_prompt)]].

Definition chat_llm (user_prompt system_instructions : string) : result json :=
  let messages := chat_messages user_prompt system_instructions in
  if String.eqb (LLM_PROVIDER cfg) "remote"
     && negb (String.eqb (LLM_ENDPOINT cfg) "")
  then _chat_remote messages
  else _chat_ollama messages.
End transport.

(** A chunk of a list body that carries a [message] field. *)
Definition carries_message (chunk : json) : bool :=
  match chunk with
  | JObj o => bool_decide (is_Some (obj_get o "message"))
  | _ => false
  end.

(** A body is recognised when it carries one of the content fields the two
    back ends read: [message] for the local one, in the object or in a chunk
    of the list; [text] or a non-empty [choices] for the remote one. *)
Definition recognised_ollama (data : json) : bool :=
  match data with
  | JObj o => bool_decide (is_Some (obj_get o "message"))
  | JArr chunks => existsb carries_message chunks
  | _ => false
  end.

Definition recognised_remote (data : json) : bool :=
  match data with
  | JObj o =>
      bool_decide (is_Some (obj_get o "text")) ||
      match obj_get o "choices" with
      | Some c => truthy c
      | None => false
      end
  | _ => false
  end.

(** The same for the back end the settings select. *)
Definition recognised (cfg : config) (data : json) : bool :=
  if String.eqb (LLM_PROVIDER cfg) "remote"
     && negb (String.eqb (LLM_ENDPOINT cfg) "")
  then recognised_remote data
  else recognised_ollama data.

Definition is_object (j : json) : bool :=
  match j with JObj _ => true | _ => false end.

(** A list body read by the local back end that holds an item which is not
    an object. *)
Definition stray_chunk (cfg : config) (data : json) : bool :=
  if String.eqb (LLM_PROVIDER cfg) "remote"
     && negb (String.eqb (LLM_ENDPOINT cfg) "")
  then false
  else match data with
       | JArr chunks => negb (forallb is_object chunks)
       | _ => false
       end.


(** Settings that select the remote back end. *)
Definition remote_config : config :=
  Config "remote" "http://localhost:11434" "llama3.1:8b"
         "https://example.org/run" "".

End LlmUtils.

(** ** chatbot.py *)

Module Chatbot.
Import PyStr.

(** The part of the file system [_load_docs] looks at: the paths the two
    [glob] calls return, and what reading a path gives ([None] when [open] or
    [read] raises). *)
Record docs_dir : Type := DocsDir {
  glob_md : list string;
  glob_txt : list string;
  read_file : string → option string
}.

Section pipeline.
Context {vec score : Type}.
Variable dot : vec → vec → score.
Variable argsort : list score → list nat.
Variable encode : list string → result (list vec).
Variable cfg : LlmUtils.config.
Variable post : LlmUtils.request → result LlmUtils.response.
Variable fs : docs_dir.

(** The two module-level globals. *)
Record state : Type := State {
  _DOC_TEXTS : list string;
  _DOC_EMB : option (list vec)
}.

(** The globals when the module has just been imported. *)
Definition initial : state := State [] None.

(** The body of the [for] loop of [_load_docs]: a file that cannot be read
    is skipped. *)
Definition load_step (texts : list string) (p : string) : list string :=
  match read_file fs p with
  | Some t => texts ++ [t]
  | None => texts
  end.

(** [_load_docs()]: the globals after the call, also when it raises. *)
Definition _load_docs (st : state) : state * result unit :=
  match _DOC_TEXTS st with
  | _ :: _ => (st, Ok ())
  | [] =>
      let paths := sorted (glob_md fs ++ glob_txt fs) in
      let texts := foldl load_step (_DOC_TEXTS st) paths in
      match texts with
      | [] => (State texts (_DOC_EMB st), Ok ())
      | _ :: _ =>
          match EmbeddingUtils.embed_texts encode texts with
          | Ok emb => (State texts (Some emb), Ok ())
          | Raise e => (State texts (_DOC_EMB st), Raise e)
          end
      end
  end.

Definition _SYSTEM : string :=
  "You answer questions about Snowflake schema evolution. Prefer any provided context.".

(** One element of [ctxs]; the format string holds a backslash and an [n],
    not a line break. *)
Definition doc_snippet (texts : list string) (hit : nat * score)
  : result string :=
  match texts !! hit.1 with
  | Some t => Ok ("[Doc " +:+ pretty hit.1 +:+ "]\n" +:+ take_prefix 1200 t)
  | None => Raise IndexError
  end.

(** The body of the [try] block of [answer_question]. *)
Definition retrieve (st : state) (question context : string) : result string :=
  match _DOC_TEXTS st, _DOC_EMB st with
  | _ :: _, Some emb =>
      sims ← EmbeddingUtils.top_k_similar dot argsort encode question
               (_DOC_TEXTS st) emb 2;
      ctxs ← comprehension (doc_snippet (_DOC_TEXTS st)) sims;
      Ok (context +:+ nl +:+ nl +:+ join (nl +:+ nl) ctxs)
  | _, _ => Ok context
  end.

(** The prompt template of [answer_question]. *)
Definition answer_prompt (context question : string) : string :=
  nl +:+ "Context (may be empty):" +:+ nl +:+ context +:+ nl +:+ nl
  +:+ "Question: " +:+ question +:+ nl +:+ nl
  +:+ "Answer clearly and concisely. When relevant, include Snowflake SQL."
  +:+ nl.

Definition answer_question (st : state) (question : string)
    (extra_context : option string) : state * result LlmUtils.json :=
  match _load_docs st with
  | (st', Raise e) => (st', Raise e)
  | (st', Ok _) =>
      let context := default "" extra_context in
      let context :=
        match retrieve st' question context with
        | Ok c => c
        | Raise _ => context
        end in
      let prompt := answer_prompt context question in
      (st', LlmUtils.chat_llm cfg post prompt _SYSTEM)
  end.
End pipeline.

(** A documents directory with one readable file, and an embedding back end
    that is not available. *)
Definition one_doc : docs_dir :=
  DocsDir ["docs/evolution.md"] []
          (λ p, if String.eqb p "docs/evolution.md"
                then Some "ALTER TABLE t ADD COLUMN c VARCHAR;" else None).

Definition unavailable (texts : list string) : result (list (list Z)) :=
  Raise (RuntimeError "embedding model unavailable").

(** A generation back end that answers every request with the same text. *)
Definition canned (req : LlmUtils.request) : result LlmUtils.response :=
  Ok (LlmUtils.Response 200
        (Some (LlmUtils.JObj
                 [("message", LlmUtils.JObj [("content", LlmUtils.JStr "ok")])]))).

(** A documents directory with two readable files and one that cannot be
    read, the paths not in order; and an empty one. *)
Definition three_paths : docs_dir :=
  DocsDir ["docs/b.md"; "docs/a.md"] ["docs/c.txt"]
          (λ p, if String.eqb p "docs/a.md" then Some "COPY INTO loads files."
                else if String.eqb p "docs/c.txt" then Some "Snowpipe loads continuously."
                else None).

Definition empty_dir : docs_dir := DocsDir [] [] (λ _, None).

(** An embedding back end over integer rows: the length of the text and a
    constant. *)
Definition length_encode (texts : list string) : result (list (list Z)) :=
  Ok ((λ t, [Z.of_nat (String.length t); 1%Z]) <$> texts).

End Chatbot.

(** ** schema_utils.py: prompts and the live schema *)

Module SchemaPrompts.
Import PyStr SchemaUtils.

(** The order of Python on the pairs of [s.items()]: by key, then by
    value. *)
Definition item_le (a b : string * string) : Prop :=
  if decide (a.1 = b.1) then String.le a.2 b.2 else String.le a.1 b.1.

Global Instance item_le_dec : RelDecision item_le.
Proof. intros a b. unfold item_le. destruct (decide (a.1 = b.1)); apply _. Defined.

(** [sorted(s.items())] *)
Definition sorted_items (s : dict) : list (string * string) :=
  merge_sort item_le s.

(** One line of [_format_schema]. *)
Definition format_item (kv : string * string) : string :=
  "- " +:+ kv.1 +:+ ": " +:+ kv.2.

Definition _format_schema (s : dict) : string :=
  join nl (format_item <$> sorted_items s).

(** The prompt template of [explain_changes_with_ai]. *)
Definition explain_prompt (existing new : dict) (table_name : string) : string :=
  nl +:+ "You are an expert Snowflake engineer. Compare the two table schemas and explain the changes clearly and concisely."
  +:+ nl +:+ nl +:+ "Table: " +:+ table_name
  +:+ nl +:+ nl +:+ "Existing schema:" +:+ nl +:+ _format_schema existing
  +:+ nl +:+ nl +:+ "New schema (candidate):" +:+ nl +:+ _format_schema new
  +:+ nl +:+ nl +:+ "Describe:"
  +:+ nl +:+ "1) Added columns (with types)"
  +:+ nl +:+ "2) Removed or missing columns and their impact"
  +:+ nl +:+ "3) Data type conflicts and safe migration advice"
  +:+ nl +:+ "4) Risks (NULLability, backfills, ingestion issues)"
  +:+ nl +:+ "Give concise bullet points, and when appropriate, include example Snowflake SQL in a fenced code block."
  +:+ nl.

(** The prompt template of [generate_sql_with_ai]. *)
Definition sql_prompt (existing new : dict) (table_name : string) : string :=
  nl +:+ "Generate Snowflake SQL to evolve table `" +:+ table_name
  +:+ "` from the existing schema to match the new schema."
  +:+ nl +:+ "Rules:"
  +:+ nl +:+ "- Preserve data: avoid destructive operations by default."
  +:+ nl +:+ "- Add new columns as NULLable unless specified."
  +:+ nl +:+ "- For type conflicts, suggest safe ALTER ... USING CAST or create intermediate columns."
  +:+ nl +:+ "- Output only the SQL inside a fenced markdown code block."
  +:+ nl +:+ nl +:+ "Existing schema:" +:+ nl +:+ _format_schema existing
  +:+ nl +:+ nl +:+ "New schema:" +:+ nl +:+ _format_schema new
  +:+ nl.

Section generation.
Variable cfg : LlmUtils.config.
Variable post : LlmUtils.request → result LlmUtils.response.

Definition explain_changes_with_ai (existing new : dict) (table_name : string)
  : result LlmUtils.json :=
  LlmUtils.chat_llm cfg post (explain_prompt existing new table_name)
                    LlmUtils.SYSTEM_INSTRUCTIONS.

Definition generate_sql_with_ai (existing new : dict) (table_name : string)
  : result LlmUtils.json :=
  LlmUtils.chat_llm cfg post (sql_prompt existing new table_name)
                    LlmUtils.SYSTEM_INSTRUCTIONS.
End generation.

(** [{r[0]: r[1] for r in rows}] *)
Definition dict_of_rows (rows : list (string * string)) : dict :=
  foldl (λ d r, dict_set d r.1 r.2) [] rows.

(** The query text of [fetch_schema_from_snowflake]; the database name is
    part of the text. *)
Definition columns_query (database : string) : string :=
  nl +:+ "    SELECT COLUMN_NAME, DATA_TYPE"
  +:+ nl +:+ "    FROM " +:+ database +:+ ".INFORMATION_SCHEMA.COLUMNS"
  +:+ nl +:+ "    WHERE TABLE_SCHEMA = %s AND TABLE_NAME = %s"
  +:+ nl +:+ "    ORDER BY ORDINAL_POSITION"
  +:+ nl +:+ "    ".

Section warehouse.
(** [str.upper], left abstract. *)
Variable upper : string → string.
(** [cur.execute(q, params)] followed by [cur.fetchall()] on a cursor of the
    connection: the rows, each a pair (column name, data type), or the
    exception of the connector.  Closing the cursor is taken not to raise. *)
Variable execute : string → string * string → result (list (string * string)).

Definition fetch_schema_from_snowflake (database schema table : string)
  : result dict :=
  rows ← execute (columns_query database) (upper schema, upper table);
  Ok (dict_of_rows rows).
End warehouse.

End SchemaPrompts.

(** ** hf_space_api.py *)

Module HfSpaceApi.
Import PyStr.

(** A message of the request body. *)
Record Message : Type := Msg {
  role : string;
  content : string
}.

(** [[m.content for m in req.messages if m.role == r]] *)
Definition contents_of (r : string) (messages : list Message) : list string :=
  content <$> filter (λ m, role m = r) messages.

(** The prompt [run] hands to the tokenizer. *)
Definition run_prompt (messages : list Message) : string :=
  let sys := join nl (contents_of "system" messages) in
  let usr := join nl (contents_of "user" messages) in
  strip (sys +:+ nl +:+ nl +:+ usr).

Section model.
(** Tokenizing the prompt, sampling from the model and decoding the first
    output sequence: the decoded text. *)
Variable generate : string → string.

(** The completion [run] cuts out of the decoded text. *)
Definition run_completion (messages : list Message) : string :=
  let prompt := run_prompt messages in
  let text := generate prompt in
  strip (drop_prefix (String.length prompt) text).

(** [run(req)]: the body of the answer. *)
Definition run (messages : list Message) : LlmUtils.json :=
  LlmUtils.JObj [("text", LlmUtils.JStr (run_completion messages))].
End model.

End HfSpaceApi.

(** * Properties *)

(** ** Strings and sorting *)

Section pystr_facts.
Import PyStr.

Lemma startswith_spec p s : startswith p s = true ↔ ∃ post, s = p +:+ post.
Proof.
  revert s. induction p as [|a p IH]; intros s; simpl.
  - split; [intros _; by exists s | done].
  - destruct s as [|b s]; simpl.
    + split; [done | intros [post H]; discriminate H].
    + case_decide as Hab.
      * subst b. rewrite IH. split; intros [post H]; exists post.
        -- by rewrite H.
        -- by injection H.
      * split; [done | intros [post H]; injection H; intros; by subst].
Qed.

Lemma contains_spec needle hay : contains needle hay = true ↔ substring needle hay.
Proof.
  unfold substring. induction hay as [|c hay IH].
  - simpl. rewrite orb_false_r, startswith_spec. split.
    + intros [post H]. by exists "", post.
    + intros [[|? pre] [post H]]; [by exists post | discriminate H].
  - simpl. rewrite orb_true_iff, startswith_spec, IH. split.
    + intros [[post H] | (pre & post & H)].
      * by exists "", post.
      * exists (String c pre), post. by rewrite H.
    + intros ([|c' pre] & post & H).
      * left. by exists post.
      * right. injection H as -> H. by exists pre, post.
Qed.

Lemma sorted_Sorted l : Sorted String.le (sorted l).
Proof. apply (Sorted_merge_sort String.le). Qed.

Lemma sorted_StronglySorted l : StronglySorted String.le (sorted l).
Proof. apply (StronglySorted_merge_sort String.le). Qed.

Lemma sorted_Permutation l : sorted l ≡ₚ l.
Proof. apply (merge_sort_Permutation String.le). Qed.

Lemma elem_of_sorted x l : x ∈ sorted l ↔ x ∈ l.
Proof. by rewrite sorted_Permutation. Qed.

Lemma NoDup_sorted l : NoDup l → NoDup (sorted l).
Proof. by rewrite sorted_Permutation. Qed.

(** Sorting forgets the order of its argument. *)
Lemma sorted_perm l1 l2 : l1 ≡ₚ l2 → sorted l1 = sorted l2.
Proof.
  intros H. apply (Sorted_unique String.le); [apply sorted_Sorted..|].
  by rewrite !sorted_Permutation.
Qed.

Lemma sorted_nil : sorted [] = [].
Proof. reflexivity. Qed.

End pystr_facts.

(** ** The schema differ and the type normaliser *)

Section schema_facts.
Import PyStr SchemaUtils.

Lemma elem_of_key_set (d : dict) k : k ∈ key_set d ↔ k ∈ d.*1.
Proof. unfold key_set. by rewrite elem_of_list_to_set. Qed.

Lemma dict_get_Some_elem (d : dict) k v : dict_get d k = Some v → (k, v) ∈ d.
Proof.
  induction d as [|[k' v'] d IH]; simpl; [done|].
  case_decide as Hk.
  - intros [= ->]. subst k'. left.
  - intros H. right. by apply IH.
Qed.

Lemma dict_get_is_Some (d : dict) k : is_Some (dict_get d k) ↔ k ∈ d.*1.
Proof.
  induction d as [|[k' v'] d IH]; simpl.
  - split; [by intros [? ?] | by intros ?%elem_of_nil].
  - rewrite elem_of_cons. case_decide as Hk.
    + subst k'. split; [by left | by eexists].
    + rewrite IH. split; [by right | by intros [?|?]].
Qed.

Lemma dict_get_None (d : dict) k : dict_get d k = None ↔ k ∉ d.*1.
Proof. rewrite <-dict_get_is_Some, eq_None_not_Some. done. Qed.

(** In a well-formed dictionary the binding found is the only one. *)
Lemma dict_get_elem (d : dict) k v :
  dict_wf d → (k, v) ∈ d → dict_get d k = Some v.
Proof.
  unfold dict_wf. induction d as [|[k' v'] d IH]; simpl.
  - by intros _ ?%elem_of_nil.
  - rewrite NoDup_cons. intros [Hk' Hd] [[= -> ->] | Hin]%elem_of_cons.
    + by rewrite decide_True.
    + rewrite decide_False; [by apply IH|].
      intros ->. apply Hk'. apply list_elem_of_fmap. by exists (k, v).
Qed.

(** Reading a key does not depend on the insertion order. *)
Lemma dict_get_perm (d d' : dict) k :
  dict_wf d → d ≡ₚ d' → dict_get d k = dict_get d' k.
Proof.
  intros Hwf Hp.
  assert (dict_wf d') as Hwf' by (unfold dict_wf in *; by rewrite <-Hp).
  destruct (dict_get d k) as [v|] eqn:Hd.
  - symmetry. apply dict_get_elem; [done|]. rewrite <-Hp.
    by apply dict_get_Some_elem.
  - destruct (dict_get d' k) as [v'|] eqn:Hd'; [|done].
    apply dict_get_Some_elem in Hd'. rewrite <-Hp in Hd'.
    apply dict_get_elem in Hd'; [congruence | done].
Qed.

Lemma key_set_perm (d d' : dict) : d ≡ₚ d' → key_set d = key_set d'.
Proof.
  intros Hp. apply set_eq. intros k. rewrite !elem_of_key_set. by rewrite Hp.
Qed.

(** The loop that collects the conflicts is a filter. *)
Lemma conflicts_loop_filter existing new acc cols :
  foldl (conflict_step existing new) acc cols
  = acc ++ filter (λ col, dict_get existing col ≠ dict_get new col) cols.
Proof.
  revert acc. induction cols as [|col cols IH]; intros acc; simpl.
  - by rewrite app_nil_r.
  - rewrite IH. unfold conflict_step. rewrite filter_cons.
    case_decide as Heq.
    + by rewrite decide_False by (intros ?; done).
    + rewrite decide_True by done. by rewrite <-app_assoc.
Qed.

Lemma elem_of_conflicts_loop existing new cols k :
  k ∈ foldl (conflict_step existing new) [] cols
  ↔ k ∈ cols ∧ dict_get existing k ≠ dict_get new k.
Proof.
  rewrite conflicts_loop_filter. simpl. rewrite list_elem_of_filter. tauto.
Qed.

Lemma NoDup_conflicts_loop existing new cols :
  NoDup cols → NoDup (foldl (conflict_step existing new) [] cols).
Proof. rewrite conflicts_loop_filter. simpl. apply NoDup_filter. Qed.

(** X5. Whatever order the three sets are iterated in, the result is the
    one computed with [elements]. *)
Lemma compare_schemas_iteration_order it_new it_missing it_common existing new :
  it_new ≡ₚ elements (key_set new ∖ key_set existing) →
  it_missing ≡ₚ elements (key_set existing ∖ key_set new) →
  it_common ≡ₚ elements (key_set existing ∩ key_set new) →
  compare_schemas_iterating it_new it_missing it_common existing new
  = compare_schemas existing new.
Proof.
  intros H1 H2 H3. unfold compare_schemas_iterating, compare_schemas.
  rewrite (sorted_perm _ _ H1), (sorted_perm _ _ H2). f_equal.
  apply sorted_perm. rewrite !conflicts_loop_filter. simpl. by rewrite H3.
Qed.

(** C1. [compare_schemas baseline candidate] returns as added the keys of the
    candidate that the baseline lacks, as removed the keys of the baseline
    that the candidate lacks, and as conflicts the keys of both whose type
    labels are different strings, each key once; on the baseline
    a:VARCHAR, b:INTEGER and the candidate b:FLOAT, c:VARCHAR the result is
    [c], [a], [b]. *)
Theorem compare_schemas_classifies (baseline candidate : dict) :
  let r := compare_schemas baseline candidate in
  (∀ k, k ∈ added r ↔ k ∈ candidate.*1 ∧ k ∉ baseline.*1) ∧
  (∀ k, k ∈ removed r ↔ k ∈ baseline.*1 ∧ k ∉ candidate.*1) ∧
  (∀ k, k ∈ conflicts r ↔
        ∃ t1 t2, dict_get baseline k = Some t1 ∧
                 dict_get candidate k = Some t2 ∧ t1 ≠ t2) ∧
  NoDup (added r) ∧ NoDup (removed r) ∧ NoDup (conflicts r) ∧
  compare_schemas [("a", "VARCHAR"); ("b", "INTEGER")]
                  [("b", "FLOAT"); ("c", "VARCHAR")]
  = (["c"], ["a"], ["b"]).
Proof.
  simpl. unfold added, removed, conflicts, compare_schemas. simpl.
  split_and!.
  - intros k.
    by rewrite elem_of_sorted, elem_of_elements, elem_of_difference,
      !elem_of_key_set.
  - intros k.
    by rewrite elem_of_sorted, elem_of_elements, elem_of_difference,
      !elem_of_key_set.
  - intros k.
    rewrite elem_of_sorted, elem_of_conflicts_loop, elem_of_elements,
      elem_of_intersection, !elem_of_key_set, <-!dict_get_is_Some.
    split.
    + intros [[[t1 H1] [t2 H2]] Hne]. exists t1, t2. split_and!; [done..|].
      congruence.
    + intros (t1 & t2 & H1 & H2 & Hne). rewrite H1, H2.
      split; [split; by eexists | congruence].
  - apply NoDup_sorted, NoDup_elements.
  - apply NoDup_sorted, NoDup_elements.
  - apply NoDup_sorted, NoDup_conflicts_loop, NoDup_elements.
  - vm_compute. reflexivity.
Qed.

(** C5. The three sequences of [compare_schemas] are in ascending
    lexicographic order of the column name, and two dictionaries that hold
    the same pairs in another insertion order give the same three
    sequences. *)
Theorem compare_schemas_sorted_deterministic (A A' B B' : dict) :
  dict_wf A → dict_wf B → A ≡ₚ A' → B ≡ₚ B' →
  let r := compare_schemas A B in
  StronglySorted String.le (added r) ∧
  StronglySorted String.le (removed r) ∧
  StronglySorted String.le (conflicts r) ∧
  compare_schemas A' B' = r.
Proof.
  intros HA HB HpA HpB. simpl.
  unfold added, removed, conflicts, compare_schemas. simpl.
  split_and!; try apply sorted_StronglySorted.
  rewrite <-(key_set_perm _ _ HpA), <-(key_set_perm _ _ HpB).
  do 2 f_equal. rewrite !conflicts_loop_filter. simpl.
  apply list_filter_iff. intros k.
  by rewrite (dict_get_perm A A' k HA HpA), (dict_get_perm B B' k HB HpB).
Qed.

(** The two dictionaries of the example, each also written in the other
    insertion order. *)
Lemma compare_schemas_sorted_deterministic_witness :
  let A := [("a", "VARCHAR"); ("b", "INTEGER")] in
  let A' := [("b", "INTEGER"); ("a", "VARCHAR")] in
  let B := [("b", "FLOAT"); ("c", "VARCHAR")] in
  let B' := [("c", "VARCHAR"); ("b", "FLOAT")] in
  StronglySorted String.le (added (compare_schemas A B)) ∧
  StronglySorted String.le (removed (compare_schemas A B)) ∧
  StronglySorted String.le (conflicts (compare_schemas A B)) ∧
  compare_schemas A' B' = compare_schemas A B.
Proof.
  intros A A' B B'.
  apply (compare_schemas_sorted_deterministic A A' B B').
  - unfold dict_wf. simpl. compute_done.
  - unfold dict_wf. simpl. compute_done.
  - apply perm_swap.
  - apply perm_swap.
Defined.

(** C6. Comparing a schema with itself, the empty one included, gives three
    empty sequences. *)
Theorem compare_schemas_self (S : dict) : compare_schemas S S = ([], [], []).
Proof.
  unfold compare_schemas. rewrite difference_diag_L, elements_empty.
  rewrite conflicts_loop_filter. simpl.
  induction (elements _) as [|k cols IH]; [done|].
  rewrite filter_cons, decide_False by (by intros ?). exact IH.
Qed.

(** C7. What one direction of the comparison adds the other removes. *)
Theorem compare_schemas_symmetry (A B : dict) :
  added (compare_schemas A B) = removed (compare_schemas B A) ∧
  removed (compare_schemas A B) = added (compare_schemas B A).
Proof. split; reflexivity. Qed.

(** C8. No column name is in two of the three sequences of
    [compare_schemas]. *)
Theorem compare_schemas_disjoint (existing new : dict) (k : string) :
  let r := compare_schemas existing new in
  ¬ (k ∈ added r ∧ k ∈ removed r) ∧
  ¬ (k ∈ added r ∧ k ∈ conflicts r) ∧
  ¬ (k ∈ removed r ∧ k ∈ conflicts r).
Proof.
  simpl. unfold added, removed, conflicts, compare_schemas. simpl.
  rewrite !elem_of_sorted, elem_of_conflicts_loop, !elem_of_elements.
  rewrite !elem_of_difference, elem_of_intersection. tauto.
Qed.

Lemma contains_false needle hay :
  contains needle hay = false ↔ ¬ substring needle hay.
Proof. by rewrite <-contains_spec, not_true_iff_false. Qed.

Local Ltac test_descriptor needle d H :=
  destruct (contains needle d) eqn:H;
  [apply contains_spec in H | apply contains_false in H].

(** C2, as the code has it.  [normalize] gives every descriptor one of the
    five labels, by the first test that succeeds in the order int, float,
    bool, datetime or date; the tests look for the lower-case word as a
    substring of the descriptor as it is written. *)
Theorem normalize_first_match (d : string) :
  normalize d ∈ canonical_labels ∧
  (normalize d = "INTEGER" ↔ substring "int" d) ∧
  (normalize d = "FLOAT" ↔ ¬ substring "int" d ∧ substring "float" d) ∧
  (normalize d = "BOOLEAN" ↔
     ¬ substring "int" d ∧ ¬ substring "float" d ∧ substring "bool" d) ∧
  (normalize d = "TIMESTAMP" ↔
     ¬ substring "int" d ∧ ¬ substring "float" d ∧ ¬ substring "bool" d ∧
     (substring "datetime" d ∨ substring "date" d)) ∧
  (normalize d = "VARCHAR" ↔
     ¬ substring "int" d ∧ ¬ substring "float" d ∧ ¬ substring "bool" d ∧
     ¬ substring "datetime" d ∧ ¬ substring "date" d).
Proof.
  unfold normalize, canonical_labels.
  test_descriptor "int" d Hi;
    [|test_descriptor "float" d Hf;
      [|test_descriptor "bool" d Hb;
        [|test_descriptor "datetime" d Ht; simpl;
          [|test_descriptor "date" d Hd]]]];
    (split; [rewrite !elem_of_cons; auto 10|]);
    repeat split; try discriminate; try tauto.
Qed.

(** C2, the case-insensitive reading refuted: the dtype [Int64] of a
    nullable integer column holds the word int once lower-cased, and
    [normalize] answers VARCHAR. *)
Lemma normalize_caseless_counterexample :
  contains "int" (lower "Int64") = true ∧
  normalize_caseless "Int64" = "INTEGER" ∧
  normalize "Int64" = "VARCHAR".
Proof. by vm_compute. Qed.

End schema_facts.

(** ** [infer_schema_from_df] on a whole frame *)

Section frame_facts.
Import PyStr SchemaUtils.
Variable frame_str : list (string * string) → string.

Lemma dict_set_fresh (d : dict) k v : k ∉ d.*1 → dict_set d k v = d ++ [(k, v)].
Proof.
  induction d as [|[k' v'] d IH]; simpl; [done|].
  rewrite not_elem_of_cons. intros [Hne Hk].
  rewrite decide_False by done. by rewrite IH.
Qed.

Lemma column_filter_absent (df : list (string * string)) col :
  col ∉ df.*1 → filter (λ c, c.1 = col) df = [].
Proof.
  induction df as [|c df IH]; [done|]. rewrite fmap_cons, not_elem_of_cons.
  intros [Hne Hcol]. rewrite filter_cons, decide_False by done. by apply IH.
Qed.

Lemma column_dtype_unique (df : list (string * string)) col dtype :
  NoDup df.*1 → (col, dtype) ∈ df → column_dtype frame_str df col = Ok dtype.
Proof.
  intros Hnd Hin. unfold column_dtype.
  replace (filter (λ c, c.1 = col) df) with [(col, dtype)]; [done|].
  induction df as [|c df IH]; [by apply elem_of_nil in Hin|].
  rewrite fmap_cons, NoDup_cons in Hnd. destruct Hnd as [Hc Hnd].
  rewrite filter_cons. apply elem_of_cons in Hin as [<- | Hin].
  - rewrite decide_True by done. by rewrite column_filter_absent.
  - rewrite decide_False; [by apply IH|].
    intros Heq. apply Hc. rewrite Heq.
    apply list_elem_of_fmap. by exists (col, dtype).
Qed.

Lemma infer_loop_unique (df suffix : DataFrame) (schema : dict) :
  NoDup df.*1 → suffix ⊆ df → NoDup suffix.*1 →
  (∀ k, k ∈ schema.*1 → k ∉ suffix.*1) →
  infer_loop frame_str df suffix.*1 schema
  = Ok (schema ++ ((λ c, (c.1, normalize c.2)) <$> suffix)).
Proof.
  intros Hdf. revert schema.
  induction suffix as [|[col dtype] suffix IH]; intros schema Hsub Hnd Hfresh.
  - simpl. by rewrite app_nil_r.
  - rewrite fmap_cons, NoDup_cons in Hnd. destruct Hnd as [Hcol Hnd].
    rewrite !fmap_cons. cbn [infer_loop fst snd].
    rewrite (column_dtype_unique df col dtype) by (done || apply Hsub; left).
    rewrite dict_set_fresh.
    + rewrite IH, <-app_assoc; [done| |done|].
      * intros c Hc. apply Hsub. by right.
      * intros k. rewrite fmap_app, elem_of_app. simpl.
        rewrite list_elem_of_singleton. intros [Hk | ->]; [|done].
        apply Hfresh in Hk. rewrite fmap_cons, not_elem_of_cons in Hk. tauto.
    + intros Hk. apply Hfresh in Hk. apply Hk. rewrite fmap_cons. left.
Qed.

(** X1. On a frame whose column labels are distinct the inference returns,
    in column order, each label with the normalised dtype of its column. *)
Lemma infer_schema_from_df_unique_labels (df : DataFrame) :
  NoDup df.*1 →
  infer_schema_from_df frame_str df = Ok ((λ c, (c.1, normalize c.2)) <$> df).
Proof.
  intros Hnd. unfold infer_schema_from_df.
  rewrite (infer_loop_unique df df []); [done..|].
  by intros k ?%elem_of_nil.
Qed.

(** The dtype strings of the design description's third example. *)
Example infer_schema_from_df_example :
  infer_schema_from_df frame_str
    [("id", "int64"); ("seen", "datetime64[ns]"); ("kind", "category")]
  = Ok [("id", "INTEGER"); ("seen", "TIMESTAMP"); ("kind", "VARCHAR")].
Proof. reflexivity. Qed.

(** With a repeated label [df[col]] is a frame and the attribute access
    raises. *)
Example infer_schema_from_df_repeated_label :
  infer_schema_from_df frame_str [("a", "int64"); ("a", "bool")]
  = Raise AttributeError.
Proof. reflexivity. Qed.

End frame_facts.

(** ** Retrieval *)

Section insertion_sort_facts.
Import EmbeddingUtils.
Context {score : Type}.
Variable sle : score → score → bool.
Hypothesis sle_total : ∀ a b, sle a b = true ∨ sle b a = true.
Hypothesis sle_trans : ∀ a b c, sle a b = true → sle b c = true → sle a c = true.

Lemma insert_pair_Permutation p l : insert_pair sle p l ≡ₚ p :: l.
Proof.
  induction l as [|q l IH]; simpl; [done|].
  destruct (sle p.2 q.2); [done|]. rewrite IH. apply perm_swap.
Qed.

Lemma sort_pairs_Permutation l : sort_pairs sle l ≡ₚ l.
Proof.
  induction l as [|p l IH]; simpl; [done|].
  by rewrite insert_pair_Permutation, IH.
Qed.

Lemma insert_pair_sorted p l :
  StronglySorted (before_ascending sle) l →
  Forall (λ q, p.1 < q.1) l →
  StronglySorted (before_ascending sle) (insert_pair sle p l).
Proof.
  induction l as [|q l IH]; simpl; intros Hs Hlt.
  - repeat constructor.
  - apply StronglySorted_cons in Hs as [Hq Hs].
    apply Forall_cons in Hlt as [Hpq Hlt].
    destruct (sle p.2 q.2) eqn:Hle.
    + apply StronglySorted_cons. split.
      * apply Forall_cons. split; [by split|].
        rewrite Forall_forall in Hq, Hlt |- *. intros r Hr. split.
        -- apply (sle_trans _ q.2); [done | apply (Hq r Hr)].
        -- intros _. by apply Hlt.
      * apply StronglySorted_cons. by split.
    + apply StronglySorted_cons. split; [|by apply IH].
      rewrite insert_pair_Permutation. apply Forall_cons. split; [|done].
      split; [|by rewrite Hle].
      by destruct (sle_total p.2 q.2) as [Hc|Hc]; [rewrite Hc in Hle|].
Qed.

Lemma sort_pairs_sorted l :
  StronglySorted (λ p q : nat * score, p.1 < q.1) l →
  StronglySorted (before_ascending sle) (sort_pairs sle l).
Proof.
  induction l as [|p l IH]; simpl; intros Hs; [constructor|].
  apply StronglySorted_cons in Hs as [Hp Hs].
  apply insert_pair_sorted; [by apply IH|].
  by rewrite sort_pairs_Permutation.
Qed.

(** The pairs [(i, sims[i])], in index order. *)
Lemma elem_of_enumerate (sims : list score) j i s :
  (i, s) ∈ zip (seq j (length sims)) sims → j ≤ i ∧ sims !! (i - j) = Some s.
Proof.
  revert j. induction sims as [|s' sims IH]; intros j; simpl.
  - by intros ?%elem_of_nil.
  - intros [[= -> ->] | Hin]%elem_of_cons.
    + split; [done|]. by rewrite Nat.sub_diag.
    + apply IH in Hin as [Hj Hl]. split; [lia|].
      by replace (i - j) with (S (i - S j)) by lia.
Qed.

Lemma enumerate_increasing (sims : list score) j :
  StronglySorted (λ p q : nat * score, p.1 < q.1)
                 (zip (seq j (length sims)) sims).
Proof.
  revert j. induction sims as [|s sims IH]; intros j; simpl; [constructor|].
  apply StronglySorted_cons. split; [|apply IH].
  apply Forall_forall. intros [i s'] [Hi _]%elem_of_enumerate. simpl. lia.
Qed.

Lemma comprehension_item (sims : list score) (l : list (nat * score)) :
  (∀ i s, (i, s) ∈ l → sims !! i = Some s) →
  comprehension (item sims) l.*1 = Ok l.
Proof.
  induction l as [|[i s] l IH]; intros H; [done|].
  rewrite fmap_cons. cbn [comprehension fst]. unfold item at 1.
  rewrite (H i s) by left.
  rewrite IH; [done|]. intros i' s' Hin. apply H. by right.
Qed.

Lemma StronglySorted_reverse_flip {A} (R : relation A) l :
  StronglySorted R l → StronglySorted (flip R) (reverse l).
Proof.
  induction l as [|x l IH]; intros Hs; [constructor|].
  apply StronglySorted_cons in Hs as [Hx Hs]. rewrite reverse_cons.
  apply StronglySorted_app. split_and!; [|by apply IH|repeat constructor].
  intros x1 x2 Hx1 ->%list_elem_of_singleton.
  rewrite elem_of_reverse in Hx1. rewrite Forall_forall in Hx. by apply Hx.
Qed.

Lemma StronglySorted_drop {A} (R : relation A) n l :
  StronglySorted R l → StronglySorted R (drop n l).
Proof.
  intros Hs. rewrite <-(take_drop n l) in Hs.
  by apply StronglySorted_app_1_r in Hs.
Qed.

Lemma StronglySorted_weaken {A} (R1 R2 : relation A) l :
  (∀ x y, R1 x y → R2 x y) → StronglySorted R1 l → StronglySorted R2 l.
Proof.
  intros HR. induction 1 as [|x l Hs IH Hx]; constructor; [done|].
  eapply Forall_impl; [exact Hx | auto].
Qed.

Lemma enumerate_lookup (sims : list score) j i s :
  sims !! i = Some s → (j + i, s) ∈ zip (seq j (length sims)) sims.
Proof.
  revert j i. induction sims as [|s' sims IH]; intros j [|i]; simpl; try done.
  - intros [= ->]. rewrite Nat.add_0_r. left.
  - intros Hi. right. replace (j + S i) with (S j + i) by lia. by apply IH.
Qed.

(** The insertion sort is an [argsort] as NumPy documents it. *)
Lemma insertion_argsort_ascending :
  ascending_argsort sle (insertion_argsort sle).
Proof.
  intros sims. exists (sort_pairs sle (zip (seq 0 (length sims)) sims)).
  split_and!; [apply sort_pairs_Permutation| |done].
  eapply StronglySorted_weaken;
    [|apply sort_pairs_sorted, enumerate_increasing].
  intros p q [Hle _]. exact Hle.
Qed.

End insertion_sort_facts.

Section embedding_facts.
Import EmbeddingUtils.
Context {vec score : Type}.
Variable dot : vec → vec → score.
Variable sle : score → score → bool.
Variable argsort : list score → list nat.
Variable encode : list string → result (list vec).
Hypothesis argsort_ascending : ascending_argsort sle argsort.

(** The pieces of a call of [top_k_similar] whose query is embedded: the
    arrangement [argsort] has chosen, cut by the slice and reversed. *)
Lemma top_k_similar_cut query texts docs k qv rest :
  encode [query] = Ok (qv :: rest) →
  ∃ sorted,
    top_k_similar dot argsort encode query texts docs k
    = Ok (reverse (slice_from (- k) sorted)) ∧
    length sorted = length docs ∧
    sorted.*1 ≡ₚ seq 0 (length docs) ∧
    StronglySorted (λ p q, sle p.2 q.2 = true) sorted ∧
    (∀ i s, (i, s) ∈ sorted ↔ ∃ d, docs !! i = Some d ∧ s = dot d qv).
Proof.
  intros Henc.
  set (sims := cosine_similarity_matrix dot qv docs).
  assert (length sims = length docs) as Hlen
    by (unfold sims, cosine_similarity_matrix; apply length_fmap).
  destruct (argsort_ascending sims) as (sorted & Hperm & Hsorted & Hidx).
  assert (∀ i s, (i, s) ∈ sorted ↔ sims !! i = Some s) as Hin.
  { intros i s. rewrite Hperm. split.
    - intros [_ Hin]%elem_of_enumerate. by rewrite Nat.sub_0_r in Hin.
    - apply (enumerate_lookup sims 0 i). }
  exists sorted. split_and!.
  - unfold top_k_similar. rewrite Henc. fold sims. rewrite Hidx.
    unfold slice_from. rewrite length_fmap, <-fmap_drop, <-fmap_reverse.
    apply comprehension_item. intros i s.
    rewrite elem_of_reverse. intros Hhit%subseteq_drop. by apply Hin.
  - rewrite Hperm, length_zip, length_seq. lia.
  - rewrite Hperm, Hlen. by rewrite fst_zip by (rewrite length_seq; lia).
  - exact Hsorted.
  - intros i s. rewrite Hin. unfold sims, cosine_similarity_matrix.
    rewrite list_lookup_fmap. destruct (docs !! i) as [d|]; simpl.
    + split; [intros [= <-]; by exists d | by intros (d' & [= <-] & ->)].
    + split; [done | by intros (d' & ? & _)].
Qed.

(** C4, as the code has it.  For a positive [k], [top_k_similar] returns
    min(k, N) pairs (index, score) with distinct indices of the corpus, each
    score the dot product of the stored row at that index with the query
    row, in descending order of score.  Among equal scores the order is the
    one [argsort] has chosen, reversed. *)
Theorem top_k_similar_descending query texts docs k qv rest :
  encode [query] = Ok (qv :: rest) →
  (0 < k)%Z →
  ∃ hits,
    top_k_similar dot argsort encode query texts docs k = Ok hits ∧
    length hits = Z.to_nat k `min` length docs ∧
    (∀ i s, (i, s) ∈ hits → ∃ d, docs !! i = Some d ∧ s = dot d qv) ∧
    NoDup hits.*1 ∧
    StronglySorted (before_descending sle) hits.
Proof.
  intros Henc Hk.
  destruct (top_k_similar_cut query texts docs k qv rest Henc)
    as (sorted & Hres & Hlen & Hidx & Hsorted & Hin).
  eexists. split_and!; [exact Hres|..].
  - unfold slice_from. rewrite length_reverse, length_drop, !Hlen.
    rewrite decide_True by lia. lia.
  - intros i s. rewrite elem_of_reverse. intros Hhit%subseteq_drop.
    by apply Hin.
  - rewrite fmap_reverse, reverse_Permutation. unfold slice_from.
    rewrite fmap_drop. eapply sublist_NoDup; [|apply sublist_drop].
    rewrite Hidx. apply NoDup_seq.
  - apply (StronglySorted_reverse_flip (λ p q, sle p.2 q.2 = true)).
    by apply StronglySorted_drop.
Qed.

End embedding_facts.

Section embedding_runs.
Import EmbeddingUtils.

Lemma Z_leb_total (a b : Z) : (a <=? b)%Z = true ∨ (b <=? a)%Z = true.
Proof. rewrite !Z.leb_le. lia. Qed.

Lemma Z_leb_trans (a b c : Z) :
  (a <=? b)%Z = true → (b <=? c)%Z = true → (a <=? c)%Z = true.
Proof. rewrite !Z.leb_le. lia. Qed.

Lemma insertion_argsort_Z : ascending_argsort Z.leb int_argsort.
Proof.
  apply insertion_argsort_ascending; [apply Z_leb_total | apply Z_leb_trans]. Qed.

(** Three stored rows with different scores, and [k = 2], under insertion
    sort. *)
Lemma top_k_similar_descending_witness :
  ∃ hits,
    top_k_similar int_dot int_argsort (λ _, Ok [[1; 0]%Z]) "q"
                  ["a"; "b"; "c"] [[5; 0]; [7; 1]; [3; 0]]%Z 2 = Ok hits ∧
    length hits = Z.to_nat 2 `min` 3 ∧
    (∀ i s, (i, s) ∈ hits →
       ∃ d, [[5; 0]; [7; 1]; [3; 0]]%Z !! i = Some d ∧ s = int_dot d [1; 0]%Z) ∧
    NoDup hits.*1 ∧
    StronglySorted (before_descending Z.leb) hits.
Proof.
  apply (top_k_similar_descending int_dot Z.leb int_argsort
           (λ _, Ok [[1; 0]%Z]) insertion_argsort_Z "q" ["a"; "b"; "c"]
           [[5; 0]; [7; 1]; [3; 0]]%Z 2 [1; 0]%Z []).
  - reflexivity.
  - lia.
Defined.

(** C4 refuted as stated.  With [k = 0] the slice [[-0:]] keeps the whole
    array: under every [argsort] two pairs come back where min(k, N) is zero.
    And the earlier index is not promised first among equal scores: insertion
    sort is an [argsort] as NumPy documents it, and under it two stored rows
    with the same score come back with the later index first. *)
Lemma top_k_similar_counterexample :
  (∀ argsort, ascending_argsort Z.leb argsort →
     ∃ hits, top_k_similar int_dot argsort (λ _, Ok [[1; 0]%Z]) "q" ["a"; "b"]
                           [[1; 0]; [0; 1]]%Z 0 = Ok hits ∧
             length hits = 2) ∧
  (∃ argsort, ascending_argsort Z.leb argsort ∧
     top_k_similar int_dot argsort (λ _, Ok [[1; 0]%Z]) "q" ["a"; "b"]
                   [[1; 0]; [1; 0]]%Z 2
     = Ok [(1, 1%Z); (0, 1%Z)]).
Proof.
  split.
  - intros argsort Hasc.
    destruct (top_k_similar_cut int_dot Z.leb argsort (λ _, Ok [[1; 0]%Z]) Hasc
                "q" ["a"; "b"] [[1; 0]; [0; 1]]%Z 0 [1; 0]%Z [] eq_refl)
      as (sorted & Hres & Hlen & _).
    eexists. split; [exact Hres|].
    unfold slice_from. rewrite length_reverse, length_drop, Hlen. simpl. lia.
  - exists int_argsort. split; [apply insertion_argsort_Z | reflexivity].
Qed.

End embedding_runs.

(** ** The generation back ends *)

Section llm_facts.
Import LlmUtils.

Lemma eqb_remote_endpoint cfg :
  String.eqb (LLM_PROVIDER cfg) "remote" && negb (String.eqb (LLM_ENDPOINT cfg) "")
  = true
  ↔ LLM_PROVIDER cfg = "remote" ∧ LLM_ENDPOINT cfg ≠ "".
Proof.
  rewrite andb_true_iff, negb_true_iff, String.eqb_eq.
  by rewrite <-not_true_iff_false, String.eqb_eq.
Qed.

(** C10. [chat_llm] goes to the remote back end exactly when the provider is
    the string remote and the endpoint is not empty; with any other settings,
    the provider remote with an empty endpoint among them, it goes to the
    local Ollama back end. *)
Theorem chat_llm_dispatch cfg post prompt sys :
  let messages := chat_messages prompt sys in
  (LLM_PROVIDER cfg = "remote" ∧ LLM_ENDPOINT cfg ≠ "" →
     chat_llm cfg post prompt sys = _chat_remote cfg post messages) ∧
  (¬ (LLM_PROVIDER cfg = "remote" ∧ LLM_ENDPOINT cfg ≠ "") →
     chat_llm cfg post prompt sys = _chat_ollama cfg post messages) ∧
  (LLM_PROVIDER cfg = "remote" → LLM_ENDPOINT cfg = "" →
     chat_llm cfg post prompt sys = _chat_ollama cfg post messages).
Proof.
  simpl. unfold chat_llm.
  destruct (String.eqb (LLM_PROVIDER cfg) "remote"
            && negb (String.eqb (LLM_ENDPOINT cfg) "")) eqn:Hsel.
  - apply eqb_remote_endpoint in Hsel. split_and!; [done|tauto|].
    intros _ Hempty. by destruct Hsel as [_ Hne].
  - apply not_true_iff_false in Hsel. rewrite eqb_remote_endpoint in Hsel.
    split_and!; [tauto|done..].
Qed.

(** The remote settings select the remote back end. *)
Lemma chat_llm_dispatch_witness :
  chat_llm remote_config (λ _, Raise ConnectionError) "hi" SYSTEM_INSTRUCTIONS
  = _chat_remote remote_config (λ _, Raise ConnectionError)
      (chat_messages "hi" SYSTEM_INSTRUCTIONS).
Proof.
  apply (proj1 (chat_llm_dispatch remote_config (λ _, Raise ConnectionError)
                  "hi" SYSTEM_INSTRUCTIONS)).
  split; [reflexivity | discriminate].
Defined.

Lemma unrecognised_chunks_objects (chunks : list json) :
  existsb carries_message chunks = false →
  forallb is_object chunks = true →
  comprehension
    (λ chunk, m ← py_get chunk "message" (JObj []); py_get m "content" (JStr ""))
    chunks
  = Ok (replicate (length chunks) (JStr "")).
Proof.
  induction chunks as [|chunk chunks IH]; [done|].
  cbn [existsb forallb]. rewrite orb_false_iff, andb_true_iff.
  intros [Hmsg Hrest] [Hobj Hall]. cbn [comprehension].
  rewrite (IH Hrest Hall). destruct chunk as [| | | | |o]; try done.
  simpl in Hmsg. destruct (obj_get o "message") as [m|] eqn:Hm; [done|].
  simpl. by rewrite Hm.
Qed.

Lemma unrecognised_chunks_stray (chunks : list json) :
  existsb carries_message chunks = false →
  forallb is_object chunks = false →
  comprehension
    (λ chunk, m ← py_get chunk "message" (JObj []); py_get m "content" (JStr ""))
    chunks
  = Raise AttributeError.
Proof.
  induction chunks as [|chunk chunks IH]; [done|].
  cbn [existsb forallb]. rewrite orb_false_iff, andb_false_iff.
  intros [Hmsg Hrest] Hstray. cbn [comprehension].
  destruct chunk as [| | | | |o]; try done.
  destruct Hstray as [Hobj|Hstray]; [done|]. rewrite (IH Hrest Hstray).
  simpl in Hmsg. destruct (obj_get o "message") as [m|] eqn:Hm; [done|].
  simpl. by rewrite Hm.
Qed.

Lemma join_text_empty (n : nat) : join_text (replicate n (JStr "")) = Ok "".
Proof. induction n as [|n IH]; [done|]. simpl. by rewrite IH. Qed.

(** C9, as the code has it.  A failed connection and an error status (400 to
    599) make [chat_llm] raise, and so does a body that is not JSON.  A JSON
    body without the content fields of the selected back end makes it return
    the empty string, but for a list body read by the local back end that
    holds an item which is not an object: that one raises
    [AttributeError]. *)
Theorem chat_llm_backend_errors cfg prompt sys r :
  let error_status := (400 ≤ status_code r < 600)%Z in
  (∀ e, chat_llm cfg (λ _, Raise e) prompt sys = Raise e) ∧
  (error_status → chat_llm cfg (λ _, Ok r) prompt sys = Raise HTTPError) ∧
  (¬ error_status → body r = None →
     chat_llm cfg (λ _, Ok r) prompt sys = Raise JSONDecodeError) ∧
  (¬ error_status → ∀ data, body r = Some data → recognised cfg data = false →
     stray_chunk cfg data = false →
     chat_llm cfg (λ _, Ok r) prompt sys = Ok (JStr "")) ∧
  (¬ error_status → ∀ data, body r = Some data → recognised cfg data = false →
     stray_chunk cfg data = true →
     chat_llm cfg (λ _, Ok r) prompt sys = Raise AttributeError).
Proof.
  simpl. unfold chat_llm, recognised, stray_chunk.
  destruct (String.eqb (LLM_PROVIDER cfg) "remote"
            && negb (String.eqb (LLM_ENDPOINT cfg) ""));
    unfold _chat_remote, _chat_ollama; simpl;
    unfold raise_for_status, response_json.
  - split_and!; [done|..].
    + intros Hst. by rewrite decide_True.
    + intros Hst Hbody. by rewrite decide_False, Hbody.
    + intros Hst data Hbody. rewrite decide_False, Hbody by done. simpl.
      destruct data as [| | | | |o]; try done. simpl.
      destruct (obj_get o "text"); [done|].
      destruct (obj_get o "choices") as [c|]; [|done]. simpl.
      by intros ->.
    + done.
  - split_and!; [done|..].
    + intros Hst. by rewrite decide_True.
    + intros Hst Hbody. by rewrite decide_False, Hbody.
    + intros Hst data Hbody. rewrite decide_False, Hbody by done. simpl.
      destruct data as [| | | |chunks|o]; try done; simpl.
      * intros Hrec Hobj%negb_false_iff.
        rewrite (unrecognised_chunks_objects chunks Hrec Hobj). simpl.
        by rewrite join_text_empty.
      * by destruct (obj_get o "message").
    + intros Hst data Hbody. rewrite decide_False, Hbody by done. simpl.
      destruct data as [| | | |chunks|o]; try done; simpl.
      intros Hrec Hobj%negb_true_iff.
      by rewrite (unrecognised_chunks_stray chunks Hrec Hobj).
Qed.

(** A 503 answer to the local back end, an empty object answered to the
    remote one, and to the local one a list of empty objects and a list
    holding a number. *)
Lemma chat_llm_backend_errors_witness :
  chat_llm default_config (λ _, Ok (Response 503 None)) "hi" SYSTEM_INSTRUCTIONS
  = Raise HTTPError ∧
  chat_llm remote_config (λ _, Ok (Response 200 (Some (JObj []))))
           "hi" SYSTEM_INSTRUCTIONS
  = Ok (JStr "") ∧
  chat_llm default_config
           (λ _, Ok (Response 200 (Some (JArr [JObj []; JObj []]))))
           "hi" SYSTEM_INSTRUCTIONS
  = Ok (JStr "") ∧
  chat_llm default_config (λ _, Ok (Response 200 (Some (JArr [JNum 1]))))
           "hi" SYSTEM_INSTRUCTIONS
  = Raise AttributeError.
Proof.
  split_and!.
  - apply (proj1 (proj2 (chat_llm_backend_errors default_config "hi"
                            SYSTEM_INSTRUCTIONS (Response 503 None)))).
    simpl. lia.
  - apply (proj1 (proj2 (proj2 (proj2 (chat_llm_backend_errors remote_config
             "hi" SYSTEM_INSTRUCTIONS (Response 200 (Some (JObj []))))))))
      with (data := JObj []).
    + simpl. lia.
    + reflexivity.
    + reflexivity.
    + reflexivity.
  - apply (proj1 (proj2 (proj2 (proj2 (chat_llm_backend_errors default_config
             "hi" SYSTEM_INSTRUCTIONS
             (Response 200 (Some (JArr [JObj []; JObj []]))))))))
      with (data := JArr [JObj []; JObj []]).
    + simpl. lia.
    + reflexivity.
    + reflexivity.
    + reflexivity.
  - apply (proj2 (proj2 (proj2 (proj2 (chat_llm_backend_errors default_config
             "hi" SYSTEM_INSTRUCTIONS (Response 200 (Some (JArr [JNum 1]))))))))
      with (data := JArr [JNum 1]).
    + simpl. lia.
    + reflexivity.
    + reflexivity.
    + reflexivity.
Defined.

(** C9 refuted as stated.  The body of a 200 response that carries only an
    error field has none of the content fields, and both back ends hand the
    caller an empty string instead of raising. *)
Lemma chat_llm_malformed_counterexample :
  let data := JObj [("error", JStr "model not found")] in
  recognised_ollama data = false ∧
  chat_llm default_config (λ _, Ok (Response 200 (Some data)))
           "hi" SYSTEM_INSTRUCTIONS = Ok (JStr "") ∧
  recognised_remote data = false ∧
  chat_llm remote_config (λ _, Ok (Response 200 (Some data)))
           "hi" SYSTEM_INSTRUCTIONS = Ok (JStr "").
Proof. by vm_compute. Qed.

End llm_facts.

(** ** The answering pipeline *)

Section chatbot_facts.
Import PyStr Chatbot.
Context {vec score : Type}.
Variable dot : vec → vec → score.
Variable argsort : list score → list nat.
Variable encode : list string → result (list vec).
Variable cfg : LlmUtils.config.
Variable post : LlmUtils.request → result LlmUtils.response.
Variable fs : docs_dir.

Local Abbreviation answer := (answer_question dot argsort encode cfg post fs).
Local Abbreviation generate context question :=
  (LlmUtils.chat_llm cfg post (answer_prompt context question) _SYSTEM).

(** Once texts are loaded, [_load_docs] returns at once. *)
Lemma load_docs_loaded (st : state) :
  _DOC_TEXTS st ≠ [] → _load_docs encode fs st = (st, Ok ()).
Proof. unfold _load_docs. by destruct (_DOC_TEXTS st). Qed.

(** X21. A failure of the embedding back end on the query is absorbed by the
    [try] block: the prompt is composed from [extra_context] alone. *)
Lemma answer_question_query_failure (st : state) question extra_context e :
  _DOC_TEXTS st ≠ [] →
  encode [question] = Raise e →
  answer st question extra_context
  = (st, generate (default "" extra_context) question).
Proof.
  intros Hloaded Henc. unfold answer_question.
  rewrite load_docs_loaded by done. unfold retrieve.
  destruct (_DOC_TEXTS st) as [|t texts]; [done|].
  destruct (_DOC_EMB st) as [emb|]; [|done].
  unfold EmbeddingUtils.top_k_similar. by rewrite Henc.
Qed.

(** X22. After a load that failed in the embedding back end the texts stay
    loaded without their matrix, and later questions are answered without
    document context. *)
Lemma answer_question_after_failed_load texts question extra_context :
  texts ≠ [] →
  answer_question dot argsort encode cfg post fs (State texts None) question
                  extra_context
  = (State texts None,
     LlmUtils.chat_llm cfg post
       (answer_prompt (default "" extra_context) question) _SYSTEM).
Proof.
  intros Hloaded. unfold answer_question.
  rewrite load_docs_loaded by done. unfold retrieve. simpl.
  by destruct texts.
Qed.

(** C3, the failing path.  On the first call, when the documents directory
    yields at least one text and the embedding back end raises on the texts,
    [answer_question] raises that exception: [_load_docs] is called outside
    the [try] block, and the generation back end is never asked. *)
Theorem answer_question_load_failure (st : state) question extra_context texts e :
  _DOC_TEXTS st = [] →
  foldl (load_step fs) [] (sorted (glob_md fs ++ glob_txt fs)) = texts →
  texts ≠ [] →
  encode texts = Raise e →
  answer st question extra_context = (State texts (_DOC_EMB st), Raise e).
Proof.
  intros Hempty Hload Hne Henc. unfold answer_question, _load_docs.
  rewrite Hempty, Hload. destruct texts as [|t texts]; [done|].
  unfold EmbeddingUtils.embed_texts. by rewrite Henc.
Qed.

End chatbot_facts.

Section chatbot_runs.
Import Chatbot.

(** The first question of a process whose documents directory holds one
    file while the embedding model cannot be loaded. *)
Lemma answer_question_load_failure_witness :
  answer_question EmbeddingUtils.int_dot EmbeddingUtils.int_argsort unavailable
    LlmUtils.default_config canned one_doc initial
    "How do I add a column?" (Some "table t")
  = (State ["ALTER TABLE t ADD COLUMN c VARCHAR;"] None,
     Raise (RuntimeError "embedding model unavailable")).
Proof.
  apply (answer_question_load_failure EmbeddingUtils.int_dot EmbeddingUtils.int_argsort unavailable
           LlmUtils.default_config canned one_doc initial
           "How do I add a column?" (Some "table t")
           ["ALTER TABLE t ADD COLUMN c VARCHAR;"]
           (RuntimeError "embedding model unavailable")).
  - reflexivity.
  - vm_compute. reflexivity.
  - discriminate.
  - reflexivity.
Defined.

End chatbot_runs.

(** * Further properties of the code *)

(** ** Schema inference and comparison *)

Section schema_more.
Import PyStr SchemaUtils.
Variable frame_str : list (string * string) → string.

Lemma column_filter_present (df : list (string * string)) col :
  col ∈ df.*1 → filter (λ c, c.1 = col) df ≠ [].
Proof.
  intros (c & -> & Hc)%list_elem_of_fmap Hnil.
  assert (c ∈ filter (λ x, x.1 = c.1) df) as Hin by (by apply list_elem_of_filter).
  rewrite Hnil in Hin. by apply elem_of_nil in Hin.
Qed.

Lemma infer_loop_raise df cols schema e :
  (∀ col, col ∈ cols → col ∈ df.*1) →
  infer_loop frame_str df cols schema = Raise e → e = AttributeError.
Proof.
  revert schema. induction cols as [|col cols IH]; intros schema Hcols;
    simpl; [done|].
  assert (∀ c, c ∈ cols → c ∈ df.*1) as Hrest by (intros c Hc; apply Hcols; by right).
  pose proof (column_filter_present df col (Hcols col ltac:(left))) as Hne.
  unfold column_dtype.
  destruct (filter (λ c, c.1 = col) (df : list (string * string)))
    as [|c [|c' l]]; [done|by apply IH|].
  case_decide; [by apply IH | by intros [= <-]].
Qed.

Lemma infer_loop_ok df cols schema s :
  infer_loop frame_str df cols schema = Ok s →
  Forall (λ col, ∃ dtype, column_dtype frame_str df col = Ok dtype) cols.
Proof.
  revert schema. induction cols as [|col cols IH]; intros schema; simpl;
    [by constructor|].
  destruct (column_dtype frame_str df col) as [dtype|e] eqn:Hcol; [|done].
  intros Hloop. constructor; [by exists dtype | by eapply IH].
Qed.

(** X2. A frame in which a column label other than [dtype] occurs twice
    makes [infer_schema_from_df] raise [AttributeError]: for that label
    [df[col]] is a frame, which has no [dtype]. *)
Theorem infer_schema_from_df_repeated_label_raises (df : DataFrame) col :
  col ≠ "dtype" →
  2 ≤ length (filter (λ c, c.1 = col) (df : list (string * string))) →
  infer_schema_from_df frame_str df = Raise AttributeError.
Proof.
  intros Hcol Htwice. unfold infer_schema_from_df.
  destruct (infer_loop frame_str df df.*1 []) as [s|e] eqn:Hloop.
  - exfalso. apply infer_loop_ok in Hloop. rewrite Forall_forall in Hloop.
    destruct (Hloop col) as [dtype Hdtype].
    + destruct (filter (λ c, c.1 = col) (df : list (string * string)))
        as [|c l] eqn:Hf; [simpl in Htwice; lia|].
      assert (c ∈ filter (λ c, c.1 = col) (df : list (string * string))) as Hc
        by (rewrite Hf; left).
      apply list_elem_of_filter in Hc as [<- Hc].
      apply list_elem_of_fmap. by exists c.
    + unfold column_dtype in Hdtype.
      destruct (filter (λ c, c.1 = col) (df : list (string * string)))
        as [|c [|c' l]]; [done|simpl in Htwice; lia|].
      by rewrite decide_False in Hdtype.
  - by apply infer_loop_raise in Hloop as ->.
Qed.

End schema_more.

Section schema_more_runs.
Import PyStr SchemaUtils.

(** Three columns with distinct labels. *)
Lemma infer_schema_from_df_unique_labels_witness :
  infer_schema_from_df (λ _, "")
    [("id", "int64"); ("price", "float32"); ("ok", "bool")]
  = Ok [("id", "INTEGER"); ("price", "FLOAT"); ("ok", "BOOLEAN")].
Proof.
  apply (infer_schema_from_df_unique_labels (λ _, "")
           [("id", "int64"); ("price", "float32"); ("ok", "bool")]).
  simpl. compute_done.
Defined.

Lemma infer_schema_from_df_repeated_label_raises_witness :
  infer_schema_from_df (λ _, "")
    [("a", "int64"); ("b", "bool"); ("a", "object")]
  = Raise AttributeError.
Proof.
  apply (infer_schema_from_df_repeated_label_raises (λ _, "")
           [("a", "int64"); ("b", "bool"); ("a", "object")] "a").
  - discriminate.
  - simpl. lia.
Defined.

End schema_more_runs.

Section schema_more_compare.
Import PyStr SchemaUtils.

Lemma sorted_nil_inv l : sorted l = [] → l = [].
Proof.
  intros H. apply Permutation_nil_r. rewrite <-H. by rewrite sorted_Permutation.
Qed.

Lemma conflicts_loop_nil existing new cols :
  foldl (conflict_step existing new) [] cols = [] ↔
  ∀ k, k ∈ cols → dict_get existing k = dict_get new k.
Proof.
  split.
  - intros Hnil k Hk. destruct (decide (dict_get existing k = dict_get new k))
      as [|Hne]; [done|].
    assert (k ∈ foldl (conflict_step existing new) [] cols) as Hin
      by (by apply elem_of_conflicts_loop).
    rewrite Hnil in Hin. by apply elem_of_nil in Hin.
  - intros Hsame. destruct (foldl _ _ _) as [|k l] eqn:Hl; [done|].
    assert (k ∈ foldl (conflict_step existing new) [] cols) as Hin
      by (rewrite Hl; left).
    apply elem_of_conflicts_loop in Hin as [Hk Hne]. by apply Hsame in Hk.
Qed.

(** X3. The comparison reports nothing exactly when the two dictionaries
    bind the same keys to the same type labels. *)
Theorem compare_schemas_empty_iff (existing new : dict) :
  compare_schemas existing new = ([], [], []) ↔
  ∀ k, dict_get existing k = dict_get new k.
Proof.
  unfold compare_schemas. split.
  - intros [= Hadd Hrem Hconf] k.
    apply sorted_nil_inv in Hadd. apply elements_empty_inv in Hadd.
    apply sorted_nil_inv in Hrem. apply elements_empty_inv in Hrem.
    apply sorted_nil_inv in Hconf. rewrite conflicts_loop_nil in Hconf.
    destruct (decide (k ∈ key_set existing ∩ key_set new)) as [Hin|Hout].
    + apply Hconf. by apply elem_of_elements.
    + assert ((k ∉ key_set existing) ∧ (k ∉ key_set new)) as [He Hn].
      { assert (k ∉ key_set new ∖ key_set existing) as H1
          by (rewrite Hadd; apply not_elem_of_empty).
        assert (k ∉ key_set existing ∖ key_set new) as H2
          by (rewrite Hrem; apply not_elem_of_empty).
        rewrite elem_of_intersection in Hout.
        rewrite elem_of_difference in H1, H2.
        destruct (decide (k ∈ key_set existing));
          destruct (decide (k ∈ key_set new)); tauto. }
      rewrite elem_of_key_set, <-dict_get_None in He, Hn. by rewrite He, Hn.
  - intros Hsame.
    assert (key_set existing = key_set new) as Hkeys.
    { apply set_eq. intros k.
      by rewrite !elem_of_key_set, <-!dict_get_is_Some, Hsame. }
    rewrite Hkeys, difference_diag_L, elements_empty.
    replace (foldl _ _ _) with (@nil string); [done|].
    symmetry. apply conflicts_loop_nil. auto.
Qed.

(** X4. The conflicts do not depend on which dictionary is called the
    existing one. *)
Theorem compare_schemas_conflicts_sym (A B : dict) :
  conflicts (compare_schemas A B) = conflicts (compare_schemas B A).
Proof.
  unfold conflicts, compare_schemas. simpl.
  rewrite !conflicts_loop_filter. simpl.
  rewrite (comm_L (∩) (key_set B) (key_set A)). f_equal.
  apply list_filter_iff. intros k. split; intros H Heq; by apply H.
Qed.

(** Each of the three sets listed in another order than [elements]. *)
Lemma compare_schemas_iteration_order_witness :
  let existing := [("a", "VARCHAR"); ("b", "INTEGER"); ("c", "FLOAT");
                   ("d", "VARCHAR")] in
  let new := [("c", "VARCHAR"); ("e", "FLOAT"); ("b", "FLOAT"); ("f", "FLOAT")] in
  compare_schemas_iterating ["f"; "e"] ["d"; "a"] ["b"; "c"] existing new
  = compare_schemas existing new.
Proof.
  intros existing new.
  apply (compare_schemas_iteration_order ["f"; "e"] ["d"; "a"] ["b"; "c"]
           existing new).
  - vm_compute. apply perm_swap.
  - vm_compute. apply perm_swap.
  - vm_compute. apply perm_swap.
Defined.

End schema_more_compare.

(** ** Prompts and the live schema *)

Section prompts_facts.
Import PyStr SchemaUtils SchemaPrompts.

Global Instance item_le_total : Total item_le.
Proof.
  intros a b. unfold item_le.
  destruct (decide (a.1 = b.1)) as [Hab|Hab].
  - rewrite decide_True by done. apply (total String.le).
  - rewrite decide_False by (by intros ?). apply (total String.le).
Qed.

Global Instance item_le_trans : Transitive item_le.
Proof.
  intros a b c. unfold item_le.
  destruct (decide (a.1 = b.1)) as [Hab|Hab];
    destruct (decide (b.1 = c.1)) as [Hbc|Hbc];
    destruct (decide (a.1 = c.1)) as [Hac|Hac];
    intros H1 H2; try (exfalso; congruence).
  - by trans b.2.
  - by rewrite Hab.
  - by rewrite <-Hbc.
  - exfalso. apply Hab. apply (anti_symm String.le); [done|].
    by rewrite Hac.
  - by trans b.1.
Qed.

Global Instance item_le_antisym : AntiSymm (=) item_le.
Proof.
  intros [k1 v1] [k2 v2]. unfold item_le. simpl.
  destruct (decide (k1 = k2)) as [->|Hne].
  - rewrite decide_True by done. intros H1 H2. f_equal.
    by apply (anti_symm String.le).
  - rewrite decide_False by (by intros ?). intros H1 H2.
    exfalso. apply Hne. by apply (anti_symm String.le).
Qed.

Lemma sorted_items_perm (s s' : dict) : s ≡ₚ s' → sorted_items s = sorted_items s'.
Proof.
  intros Hp. apply (Sorted_unique item_le).
  - apply (Sorted_merge_sort item_le).
  - apply (Sorted_merge_sort item_le).
  - unfold sorted_items. by rewrite !merge_sort_Permutation.
Qed.

Lemma format_schema_perm (s s' : dict) : s ≡ₚ s' → _format_schema s = _format_schema s'.
Proof. intros Hp. unfold _format_schema. by rewrite (sorted_items_perm s s'). Qed.

Lemma item_le_key a b : item_le a b → String.le a.1 b.1.
Proof.
  unfold item_le. destruct (decide (a.1 = b.1)) as [->|]; [|done].
  intros _. reflexivity.
Qed.

(** X6. [_format_schema] writes one line per entry of the dictionary, the
    lines in ascending order of the column name. *)
Theorem format_schema_lines (s : dict) :
  ∃ items, items ≡ₚ s ∧ StronglySorted String.le items.*1 ∧
           _format_schema s = join nl (format_item <$> items).
Proof.
  exists (sorted_items s). split_and!.
  - apply merge_sort_Permutation.
  - apply (StronglySorted_fmap fst item_le); [apply item_le_key|].
    apply (StronglySorted_merge_sort item_le).
  - done.
Qed.

(** X7. The prompts of [explain_changes_with_ai] and [generate_sql_with_ai]
    do not depend on the insertion order of the two dictionaries: the same
    request goes to the generation back end. *)
Theorem ai_prompts_insertion_order cfg post (A A' B B' : dict) table_name :
  A ≡ₚ A' → B ≡ₚ B' →
  explain_changes_with_ai cfg post A B table_name
  = explain_changes_with_ai cfg post A' B' table_name ∧
  generate_sql_with_ai cfg post A B table_name
  = generate_sql_with_ai cfg post A' B' table_name.
Proof.
  intros HA HB. unfold explain_changes_with_ai, generate_sql_with_ai.
  unfold explain_prompt, sql_prompt.
  by rewrite (format_schema_perm A A' HA), (format_schema_perm B B' HB).
Qed.

Lemma ai_prompts_insertion_order_witness :
  let A := [("a", "VARCHAR"); ("b", "INTEGER")] in
  let A' := [("b", "INTEGER"); ("a", "VARCHAR")] in
  let B := [("b", "FLOAT"); ("c", "VARCHAR")] in
  let B' := [("c", "VARCHAR"); ("b", "FLOAT")] in
  explain_changes_with_ai LlmUtils.default_config Chatbot.canned A B "employee"
  = explain_changes_with_ai LlmUtils.default_config Chatbot.canned A' B' "employee" ∧
  generate_sql_with_ai LlmUtils.default_config Chatbot.canned A B "employee"
  = generate_sql_with_ai LlmUtils.default_config Chatbot.canned A' B' "employee".
Proof.
  intros A A' B B'.
  apply (ai_prompts_insertion_order LlmUtils.default_config Chatbot.canned
           A A' B B' "employee"); apply perm_swap.
Defined.

Lemma dict_set_keys (d : dict) k v :
  (dict_set d k v).*1 = if decide (k ∈ d.*1) then d.*1 else d.*1 ++ [k].
Proof.
  induction d as [|[k' v'] d IH].
  - by rewrite decide_False by apply not_elem_of_nil.
  - cbn [dict_set]. destruct (decide (k' = k)) as [->|Hne];
      rewrite !fmap_cons; cbn [fst].
    + by rewrite decide_True by left.
    + rewrite IH. destruct (decide (k ∈ d.*1)) as [Hin|Hout].
      * by rewrite decide_True by (by right).
      * rewrite decide_False; [done|].
        rewrite elem_of_cons. by intros [->|?].
Qed.

Lemma dict_set_wf (d : dict) k v : dict_wf d → dict_wf (dict_set d k v).
Proof.
  unfold dict_wf. rewrite dict_set_keys. case_decide as Hk; [done|].
  intros Hd. apply NoDup_app. split_and!; [done| |apply NoDup_singleton].
  intros x Hx ->%list_elem_of_singleton. done.
Qed.

Lemma dict_get_set (d : dict) k v k' :
  dict_get (dict_set d k v) k' = if decide (k = k') then Some v else dict_get d k'.
Proof.
  induction d as [|[k0 v0] d IH]; simpl.
  - done.
  - destruct (decide (k0 = k)) as [->|Hne]; simpl.
    + by destruct (decide (k = k')).
    + rewrite IH. destruct (decide (k0 = k')) as [->|]; [|done].
      by rewrite decide_False by (by intros ->).
Qed.

Lemma dict_of_rows_snoc rows r :
  dict_of_rows (rows ++ [r]) = dict_set (dict_of_rows rows) r.1 r.2.
Proof. unfold dict_of_rows. by rewrite foldl_snoc. Qed.

Lemma dict_of_rows_wf rows : dict_wf (dict_of_rows rows).
Proof.
  induction rows as [|r rows IH] using rev_ind.
  - apply NoDup_nil_2.
  - rewrite dict_of_rows_snoc. by apply dict_set_wf.
Qed.

Lemma dict_of_rows_get rows k :
  dict_get (dict_of_rows rows) k
  = snd <$> last (filter (λ r : string * string, r.1 = k) rows).
Proof.
  induction rows as [|r rows IH] using rev_ind; [done|].
  rewrite dict_of_rows_snoc, dict_get_set, filter_app, filter_cons, filter_nil.
  destruct (decide (r.1 = k)) as [Hk|Hk].
  - by rewrite last_snoc.
  - by rewrite app_nil_r.
Qed.

(** X8. From the rows the warehouse returns, [fetch_schema_from_snowflake]
    builds a dictionary with each column name once, bound to the data type
    of the last row that names the column. *)
Theorem fetch_schema_last_row_wins (upper : string → string)
    (execute : string → string * string → result (list (string * string)))
    database schema table rows :
  execute (columns_query database) (upper schema, upper table) = Ok rows →
  ∃ d, fetch_schema_from_snowflake upper execute database schema table = Ok d ∧
       dict_wf d ∧
       ∀ k, dict_get d k
            = snd <$> last (filter (λ r : string * string, r.1 = k) rows).
Proof.
  intros Hrows. exists (dict_of_rows rows). split_and!.
  - unfold fetch_schema_from_snowflake. by rewrite Hrows.
  - apply dict_of_rows_wf.
  - apply dict_of_rows_get.
Qed.

Lemma fetch_schema_last_row_wins_witness :
  let rows := [("ID", "NUMBER"); ("NAME", "TEXT"); ("ID", "FLOAT")] in
  ∃ d, fetch_schema_from_snowflake (λ s, s) (λ _ _, Ok rows) "DB" "PUBLIC" "T"
       = Ok d ∧
       dict_wf d ∧
       ∀ k, dict_get d k
            = snd <$> last (filter (λ r : string * string, r.1 = k) rows).
Proof.
  intros rows.
  apply (fetch_schema_last_row_wins (λ s, s) (λ _ _, Ok rows) "DB" "PUBLIC" "T"
           rows).
  reflexivity.
Defined.

End prompts_facts.

(** ** Retrieval: what is kept and what is cut *)

Section embedding_more.
Import EmbeddingUtils.
Context {vec score : Type}.
Variable dot : vec → vec → score.
Variable sle : score → score → bool.
Variable argsort : list score → list nat.
Variable encode : list string → result (list vec).
Hypothesis argsort_ascending : ascending_argsort sle argsort.

(** The index at which the slice [[-k:]] cuts an array of [n] items. *)
Lemma slice_from_drop {A} (k : Z) (a : list A) :
  slice_from (- k) a
  = drop (Z.to_nat (if decide (- k < 0)%Z
                    then Z.max (Z.of_nat (length a) + - k) 0
                    else Z.min (- k) (Z.of_nat (length a)))) a.
Proof. reflexivity. Qed.

(** X9. Whatever [k] is, no document left out of the result of
    [top_k_similar] scores higher than a document in it. *)
Theorem top_k_similar_keeps_best query texts docs k qv rest :
  encode [query] = Ok (qv :: rest) →
  ∃ hits,
    top_k_similar dot argsort encode query texts docs k = Ok hits ∧
    ∀ j d, docs !! j = Some d → j ∉ hits.*1 →
    ∀ i s, (i, s) ∈ hits → sle (dot d qv) s = true.
Proof.
  intros Henc.
  destruct (top_k_similar_cut dot sle argsort encode argsort_ascending
              query texts docs k qv rest Henc)
    as (sorted & Hres & _ & _ & Hsorted & Hin).
  eexists. split; [exact Hres|].
  intros j d Hd Hout i s Hhit. rewrite slice_from_drop in Hout, Hhit.
  set (m := Z.to_nat _) in *.
  rewrite elem_of_reverse in Hhit.
  assert ((j, dot d qv) ∈ sorted) as Hj by (apply Hin; eauto).
  rewrite <-(take_drop m sorted) in Hj, Hsorted.
  apply elem_of_app in Hj as [Hj|Hj].
  - apply StronglySorted_app in Hsorted as (Hcross & _ & _).
    exact (Hcross _ _ Hj Hhit).
  - exfalso. apply Hout. rewrite fmap_reverse, elem_of_reverse.
    apply list_elem_of_fmap. by exists (j, dot d qv).
Qed.

(** X10. With [k ≤ 0] the slice [[-k:]] counts from the front: the result
    holds all N pairs for [k = 0], and N - |k| pairs (none when |k| ≥ N) for a
    negative [k], still in descending order of score. *)
Theorem top_k_similar_nonpositive_k query texts docs k qv rest :
  encode [query] = Ok (qv :: rest) →
  (k ≤ 0)%Z →
  ∃ hits,
    top_k_similar dot argsort encode query texts docs k = Ok hits ∧
    length hits = length docs - Z.to_nat (- k) ∧
    StronglySorted (before_descending sle) hits.
Proof.
  intros Henc Hk.
  destruct (top_k_similar_cut dot sle argsort encode argsort_ascending
              query texts docs k qv rest Henc)
    as (sorted & Hres & Hlen & _ & Hsorted & _).
  eexists. split_and!; [exact Hres|..].
  - rewrite slice_from_drop, length_reverse, length_drop, Hlen.
    rewrite decide_False by lia. lia.
  - apply (StronglySorted_reverse_flip (λ p q, sle p.2 q.2 = true)).
    by apply StronglySorted_drop.
Qed.

(** X11. With [k] at least the size of the corpus every document is
    returned, each once. *)
Theorem top_k_similar_large_k query texts docs k qv rest :
  encode [query] = Ok (qv :: rest) →
  (Z.of_nat (length docs) ≤ k)%Z →
  ∃ hits,
    top_k_similar dot argsort encode query texts docs k = Ok hits ∧
    hits.*1 ≡ₚ seq 0 (length docs).
Proof.
  intros Henc Hk.
  destruct (top_k_similar_cut dot sle argsort encode argsort_ascending
              query texts docs k qv rest Henc)
    as (sorted & Hres & Hlen & Hidx & _ & _).
  eexists. split; [exact Hres|].
  rewrite slice_from_drop, Hlen.
  replace (Z.to_nat _) with 0.
  - by rewrite drop_0, fmap_reverse, reverse_Permutation.
  - case_decide; lia.
Qed.

End embedding_more.

Section embedding_more_runs.
Import EmbeddingUtils.

Lemma top_k_similar_keeps_best_witness :
  ∃ hits,
    top_k_similar int_dot int_argsort (λ _, Ok [[1; 0]%Z]) "q" ["a"; "b"; "c"]
                  [[3; 0]; [7; 1]; [5; 0]]%Z 2 = Ok hits ∧
    ∀ j d, [[3; 0]; [7; 1]; [5; 0]]%Z !! j = Some d → j ∉ hits.*1 →
    ∀ i s, (i, s) ∈ hits → (int_dot d [1; 0]%Z <=? s)%Z = true.
Proof.
  apply (top_k_similar_keeps_best int_dot Z.leb int_argsort
           (λ _, Ok [[1; 0]%Z]) insertion_argsort_Z "q" ["a"; "b"; "c"]
           [[3; 0]; [7; 1]; [5; 0]]%Z 2 [1; 0]%Z []).
  reflexivity.
Defined.

Lemma top_k_similar_nonpositive_k_witness :
  ∃ hits,
    top_k_similar int_dot int_argsort (λ _, Ok [[1; 0]%Z]) "q" ["a"; "b"; "c"]
                  [[3; 0]; [7; 1]; [5; 0]]%Z (-1) = Ok hits ∧
    length hits = 3 - Z.to_nat (- -1) ∧
    StronglySorted (before_descending Z.leb) hits.
Proof.
  apply (top_k_similar_nonpositive_k int_dot Z.leb int_argsort
           (λ _, Ok [[1; 0]%Z]) insertion_argsort_Z "q" ["a"; "b"; "c"]
           [[3; 0]; [7; 1]; [5; 0]]%Z (-1) [1; 0]%Z []).
  - reflexivity.
  - lia.
Defined.

Lemma top_k_similar_large_k_witness :
  ∃ hits,
    top_k_similar int_dot int_argsort (λ _, Ok [[1; 0]%Z]) "q" ["a"; "b"; "c"]
                  [[3; 0]; [7; 1]; [5; 0]]%Z 5 = Ok hits ∧
    hits.*1 ≡ₚ seq 0 3.
Proof.
  apply (top_k_similar_large_k int_dot Z.leb int_argsort
           (λ _, Ok [[1; 0]%Z]) insertion_argsort_Z "q" ["a"; "b"; "c"]
           [[3; 0]; [7; 1]; [5; 0]]%Z 5 [1; 0]%Z []).
  - reflexivity.
  - simpl. lia.
Defined.

End embedding_more_runs.

(** ** Replies of the generation back ends *)

Section llm_more.
Import LlmUtils.





(** X13. In the answer of the remote back end a [text] field is returned as
    it is, whatever else the object holds; without it, the content of the
    message of the first choice is returned, the empty string when that
    message has no content. *)
Theorem chat_remote_reply cfg messages status o :
  ¬ (400 ≤ status < 600)%Z →
  let post := λ _ : request, Ok (Response status (Some (JObj o))) in
  (∀ t, obj_get o "text" = Some t → _chat_remote cfg post messages = Ok t) ∧
  (obj_get o "text" = None →
   ∀ c cs m, obj_get o "choices" = Some (JArr (JObj c :: cs)) →
             obj_get c "message" = Some (JObj m) →
             _chat_remote cfg post messages
             = Ok (default (JStr "") (obj_get m "content"))).
Proof.
  intros Hst post. unfold _chat_remote, post. simpl.
  unfold raise_for_status. simpl. rewrite decide_False by done. simpl. split.
  - by intros t ->.
  - intros -> c cs m -> Hm. simpl. by rewrite Hm.
Qed.

Lemma chat_remote_reply_witness :
  _chat_remote remote_config
    (λ _, Ok (Response 200 (Some (JObj [("choices", JArr []); ("text", JNum 7)]))))
    (chat_messages "hi" SYSTEM_INSTRUCTIONS) = Ok (JNum 7) ∧
  _chat_remote remote_config
    (λ _, Ok (Response 200
       (Some (JObj [("choices",
                     JArr [JObj [("message", JObj [("content", JStr "ok")])]])]))))
    (chat_messages "hi" SYSTEM_INSTRUCTIONS) = Ok (JStr "ok").
Proof.
  split.
  - apply (proj1 (chat_remote_reply remote_config
                    (chat_messages "hi" SYSTEM_INSTRUCTIONS) 200
                    [("choices", JArr []); ("text", JNum 7)]
                    ltac:(lia))).
    reflexivity.
  - apply (proj2 (chat_remote_reply remote_config
                    (chat_messages "hi" SYSTEM_INSTRUCTIONS) 200
                    [("choices",
                      JArr [JObj [("message", JObj [("content", JStr "ok")])]])]
                    ltac:(lia)) eq_refl
                 [("message", JObj [("content", JStr "ok")])] []
                 [("content", JStr "ok")]); reflexivity.
Defined.

(** X14. A [message] field that is not an object (a string, a number, null)
    makes [_chat_ollama] raise [AttributeError]; it is not returned and no
    empty string stands in for it. *)
Theorem chat_ollama_message_not_object cfg messages status o m :
  ¬ (400 ≤ status < 600)%Z →
  obj_get o "message" = Some m →
  (∀ mo, m ≠ JObj mo) →
  _chat_ollama cfg (λ _, Ok (Response status (Some (JObj o)))) messages
  = Raise AttributeError.
Proof.
  intros Hst Hm Hobj. unfold _chat_ollama. simpl.
  unfold raise_for_status. simpl. rewrite decide_False by done. simpl.
  rewrite Hm. destruct m; try done. by destruct (Hobj o0).
Qed.

Lemma chat_ollama_message_not_object_witness :
  _chat_ollama default_config
    (λ _, Ok (Response 200 (Some (JObj [("message", JNull)]))))
    (chat_messages "hi" SYSTEM_INSTRUCTIONS)
  = Raise AttributeError.
Proof.
  apply (chat_ollama_message_not_object default_config
           (chat_messages "hi" SYSTEM_INSTRUCTIONS) 200
           [("message", JNull)] JNull).
  - lia.
  - reflexivity.
  - discriminate.
Defined.

End llm_more.

(** ** The model server and its client *)

Section hf_space_facts.
Import PyStr LlmUtils HfSpaceApi.

Lemma drop_prefix_app (p r : string) : drop_prefix (String.length p) (p +:+ r) = r.
Proof. induction p as [|c p IH]; [done|]. exact IH. Qed.

Lemma drop_prefix_short (n : nat) (s : string) :
  String.length s ≤ n → drop_prefix n s = "".
Proof.
  revert s. induction n as [|n IH]; intros [|c s]; simpl; try done; [lia|].
  intros Hlen. apply IH. lia.
Qed.

(** X15. [run] cuts the prompt off the decoded text by its length: when the
    text starts with the prompt the completion is the rest, stripped; when
    the text is not longer than the prompt the completion is empty. *)
Theorem run_completion_cut (generate : string → string) (messages : list Message) :
  (∀ rest, generate (run_prompt messages) = run_prompt messages +:+ rest →
           run_completion generate messages = strip rest) ∧
  (String.length (generate (run_prompt messages))
     ≤ String.length (run_prompt messages) →
   run_completion generate messages = "").
Proof.
  unfold run_completion. split.
  - intros rest ->. by rewrite drop_prefix_app.
  - intros Hlen. by rewrite drop_prefix_short.
Qed.

Lemma run_completion_cut_witness :
  let messages := [Msg "system" "Be brief."; Msg "user" "What is a stage?"] in
  run_completion (λ p, p +:+ "  A named location. ") messages
  = strip "  A named location. " ∧
  run_completion (λ p, "") messages = "".
Proof.
  intros messages. split.
  - apply (proj1 (run_completion_cut (λ p, p +:+ "  A named location. ")
                    messages)).
    reflexivity.
  - apply (proj2 (run_completion_cut (λ p, "") messages)).
    simpl. lia.
Defined.

(** X16. The body [run] answers with is read by the remote client as the
    completion; the client of the local back end finds no message in the same
    body and returns the empty string. *)
Theorem chat_llm_reads_run cfg (generate : string → string)
    (messages : list Message) prompt sys :
  let post := λ _ : request, Ok (Response 200 (Some (run generate messages))) in
  (LLM_PROVIDER cfg = "remote" ∧ LLM_ENDPOINT cfg ≠ "" →
   chat_llm cfg post prompt sys = Ok (JStr (run_completion generate messages))) ∧
  (¬ (LLM_PROVIDER cfg = "remote" ∧ LLM_ENDPOINT cfg ≠ "") →
   chat_llm cfg post prompt sys = Ok (JStr "")).
Proof.
  simpl. unfold chat_llm.
  destruct (String.eqb (LLM_PROVIDER cfg) "remote"
            && negb (String.eqb (LLM_ENDPOINT cfg) "")) eqn:Hsel.
  - apply eqb_remote_endpoint in Hsel. split; [done | tauto].
  - apply not_true_iff_false in Hsel. rewrite eqb_remote_endpoint in Hsel.
    split; [tauto | done].
Qed.

Lemma chat_llm_reads_run_witness :
  let messages := [Msg "system" "Be brief."; Msg "user" "What is a stage?"] in
  let generate := λ p, p +:+ "  A named location. " in
  chat_llm remote_config (λ _, Ok (Response 200 (Some (run generate messages))))
           "What is a stage?" "Be brief."
  = Ok (JStr (run_completion generate messages)) ∧
  chat_llm default_config (λ _, Ok (Response 200 (Some (run generate messages))))
           "What is a stage?" "Be brief."
  = Ok (JStr "").
Proof.
  intros messages generate. split.
  - apply (proj1 (chat_llm_reads_run remote_config generate messages
                    "What is a stage?" "Be brief.")).
    split; [reflexivity | discriminate].
  - apply (proj2 (chat_llm_reads_run default_config generate messages
                    "What is a stage?" "Be brief.")).
    intros [Hprovider _]. discriminate Hprovider.
Defined.

End hf_space_facts.

(** ** The answering pipeline: loading, retrieval and the corpus *)

Section chatbot_more.
Import PyStr Chatbot.
Context {vec score : Type}.
Variable dot : vec → vec → score.
Variable sle : score → score → bool.
Variable argsort : list score → list nat.
Variable encode : list string → result (list vec).
Variable cfg : LlmUtils.config.
Variable post : LlmUtils.request → result LlmUtils.response.
Variable fs : docs_dir.

Local Abbreviation answer := (answer_question dot argsort encode cfg post fs).
Local Abbreviation generate context question :=
  (LlmUtils.chat_llm cfg post (answer_prompt context question) _SYSTEM).

Lemma load_loop_omap (acc paths : list string) :
  foldl (load_step fs) acc paths = acc ++ omap (read_file fs) paths.
Proof.
  revert acc. induction paths as [|p paths IH]; intros acc; simpl.
  - by rewrite app_nil_r.
  - rewrite IH. unfold load_step. destruct (read_file fs p); [|done].
    by rewrite <-app_assoc.
Qed.

(** X17. The first call of [_load_docs] reads the paths of both patterns in
    sorted order, leaves out the files that cannot be read, and embeds the
    texts it has read in that order. *)
Theorem load_docs_first_call (st : state) texts emb :
  _DOC_TEXTS st = [] →
  texts = omap (read_file fs) (sorted (glob_md fs ++ glob_txt fs)) →
  texts ≠ [] →
  encode texts = Ok emb →
  _load_docs encode fs st = (State texts (Some emb), Ok ()).
Proof.
  intros Hempty -> Hne Henc. unfold _load_docs.
  rewrite Hempty, load_loop_omap. simpl.
  destruct (omap _ _) as [|t texts] eqn:Hload; [done|].
  unfold EmbeddingUtils.embed_texts. by rewrite Henc.
Qed.

(** X18. When no document can be read, [answer_question] does not call the
    embedding back end: whatever it would do, the answer is generated from
    [extra_context] alone, and the corpus stays empty. *)
Theorem answer_question_no_documents (st : state) question extra_context :
  _DOC_TEXTS st = [] →
  omap (read_file fs) (sorted (glob_md fs ++ glob_txt fs)) = [] →
  answer st question extra_context
  = (State [] (_DOC_EMB st), generate (default "" extra_context) question).
Proof.
  intros Hempty Hnone. unfold answer_question, _load_docs.
  by rewrite Hempty, load_loop_omap, Hnone.
Qed.

(** X19. Once texts are loaded no later question changes the two globals:
    the corpus is neither read again nor embedded again. *)
Theorem answer_question_keeps_corpus (st : state)
    (calls : list (string * option string)) :
  _DOC_TEXTS st ≠ [] →
  foldl (λ s call, (answer s call.1 call.2).1) st calls = st.
Proof.
  intros Hloaded. induction calls as [|[q c] calls IH]; [done|].
  simpl. unfold answer_question at 2.
  rewrite (load_docs_loaded encode fs st Hloaded). exact IH.
Qed.

Lemma comprehension_Forall2 {A B} (f : A → result B) (l : list A) :
  (∀ x, x ∈ l → ∃ y, f x = Ok y) →
  ∃ ys, comprehension f l = Ok ys ∧ Forall2 (λ x y, f x = Ok y) l ys.
Proof.
  induction l as [|x l IH]; intros H.
  - exists []. by split; [|constructor].
  - destruct (H x ltac:(left)) as [y Hy].
    destruct IH as (ys & Hys & Hall); [intros x' Hx'; apply H; by right|].
    exists (y :: ys). split; [|by constructor].
    cbn [comprehension]. by rewrite Hy, Hys.
Qed.

Lemma retrieve_loaded (st : state) question context emb :
  _DOC_TEXTS st ≠ [] →
  _DOC_EMB st = Some emb →
  retrieve dot argsort encode st question context
  = (sims ← EmbeddingUtils.top_k_similar dot argsort encode question
              (_DOC_TEXTS st) emb 2;
     ctxs ← comprehension (doc_snippet (_DOC_TEXTS st)) sims;
     Ok (context +:+ nl +:+ nl +:+ join (nl +:+ nl) ctxs)).
Proof.
  intros Hloaded Hemb. unfold retrieve. rewrite Hemb.
  by destruct (_DOC_TEXTS st).
Qed.

(** X20. With a loaded corpus of N texts and as many stored rows, a question
    the back end embeds is answered from a prompt whose context is
    [extra_context], a blank line, and the min(2, N) retrieved snippets
    separated by blank lines; each snippet is the label of the document index
    followed by at most the first 1200 characters of its text. *)
Theorem answer_question_with_documents (st : state) question extra_context
    emb qv rest :
  EmbeddingUtils.ascending_argsort sle argsort →
  _DOC_TEXTS st ≠ [] →
  _DOC_EMB st = Some emb →
  length emb = length (_DOC_TEXTS st) →
  encode [question] = Ok (qv :: rest) →
  ∃ hits ctxs,
    EmbeddingUtils.top_k_similar dot argsort encode question (_DOC_TEXTS st) emb 2
    = Ok hits ∧
    length hits = 2 `min` length (_DOC_TEXTS st) ∧
    Forall2 (λ hit c, ∃ t, _DOC_TEXTS st !! hit.1 = Some t ∧
                           c = "[Doc " +:+ pretty hit.1 +:+ "]\n"
                               +:+ take_prefix 1200 t)
            hits ctxs ∧
    answer st question extra_context
    = (st, generate (default "" extra_context +:+ nl +:+ nl
                     +:+ join (nl +:+ nl) ctxs) question).
Proof.
  intros Hasc Hloaded Hemb Hlen Henc.
  destruct (top_k_similar_cut dot sle argsort encode Hasc question
              (_DOC_TEXTS st) emb 2 qv rest Henc)
    as (sorted & Hres & Hsorted_len & _ & _ & Hin).
  set (hits := reverse (EmbeddingUtils.slice_from (Z.opp 2) sorted)) in *.
  assert (∀ hit, hit ∈ hits → ∃ c, doc_snippet (_DOC_TEXTS st) hit = Ok c)
    as Hsnip.
  { intros [i s]. unfold hits. rewrite elem_of_reverse.
    intros Hhit%subseteq_drop. apply Hin in Hhit as (d & Hd & _).
    apply lookup_lt_Some in Hd. rewrite Hlen in Hd.
    apply lookup_lt_is_Some in Hd as [t Ht].
    eexists. unfold doc_snippet. simpl. by rewrite Ht. }
  destruct (comprehension_Forall2 _ _ Hsnip) as (ctxs & Hctxs & Hall).
  exists hits, ctxs. split_and!; [done|..].
  - unfold hits, EmbeddingUtils.slice_from.
    rewrite length_reverse, length_drop, Hsorted_len, Hlen.
    rewrite decide_True by lia. lia.
  - eapply Forall2_impl; [exact Hall|]. intros [i s] c. unfold doc_snippet. simpl.
    destruct (_DOC_TEXTS st !! i) as [t|]; [|done].
    intros [= <-]. by exists t.
  - unfold answer_question. rewrite (load_docs_loaded encode fs st Hloaded).
    rewrite (retrieve_loaded st question _ emb Hloaded Hemb), Hres.
    unfold mbind, result_mbind. cbn [result_bind]. by rewrite Hctxs.
Qed.

End chatbot_more.

Section chatbot_more_runs.
Import Chatbot.

Lemma load_docs_first_call_witness :
  _load_docs length_encode three_paths initial
  = (State ["COPY INTO loads files."; "Snowpipe loads continuously."]
           (Some [[22; 1]; [28; 1]]%Z),
     Ok ()).
Proof.
  apply (load_docs_first_call length_encode three_paths initial
           ["COPY INTO loads files."; "Snowpipe loads continuously."]
           [[22; 1]; [28; 1]]%Z).
  - reflexivity.
  - vm_compute. reflexivity.
  - discriminate.
  - reflexivity.
Defined.

Lemma answer_question_no_documents_witness :
  answer_question EmbeddingUtils.int_dot EmbeddingUtils.int_argsort unavailable
    LlmUtils.default_config canned empty_dir initial "What is a stage?" None
  = (State [] None,
     LlmUtils.chat_llm LlmUtils.default_config canned
       (answer_prompt "" "What is a stage?") _SYSTEM).
Proof.
  apply (answer_question_no_documents EmbeddingUtils.int_dot EmbeddingUtils.int_argsort unavailable
           LlmUtils.default_config canned empty_dir initial
           "What is a stage?" None).
  - reflexivity.
  - reflexivity.
Defined.

Lemma answer_question_keeps_corpus_witness :
  let st := State ["COPY INTO loads files."] (Some [[22; 1]]%Z) in
  foldl (λ s call,
           (answer_question EmbeddingUtils.int_dot EmbeddingUtils.int_argsort length_encode
              LlmUtils.default_config canned three_paths s call.1 call.2).1)
        st [("What is a stage?", None); ("And a pipe?", Some "table t")]
  = st.
Proof.
  intros st.
  apply (answer_question_keeps_corpus EmbeddingUtils.int_dot EmbeddingUtils.int_argsort
           length_encode LlmUtils.default_config canned three_paths st
           [("What is a stage?", None); ("And a pipe?", Some "table t")]).
  discriminate.
Defined.

Lemma answer_question_with_documents_witness :
  let st := State ["COPY INTO loads files."; "Snowpipe loads continuously.";
                   "Streams track changes."]
                  (Some [[22; 1]; [28; 1]; [30; 1]]%Z) in
  ∃ hits ctxs,
    EmbeddingUtils.top_k_similar EmbeddingUtils.int_dot EmbeddingUtils.int_argsort length_encode
      "How to load?" (_DOC_TEXTS st) [[22; 1]; [28; 1]; [30; 1]]%Z 2
    = Ok hits ∧
    length hits = 2 `min` length (_DOC_TEXTS st) ∧
    Forall2 (λ hit c, ∃ t, _DOC_TEXTS st !! hit.1 = Some t ∧
                           c = "[Doc " +:+ pretty hit.1 +:+ "]\n"
                               +:+ PyStr.take_prefix 1200 t)
            hits ctxs ∧
    answer_question EmbeddingUtils.int_dot EmbeddingUtils.int_argsort length_encode
      LlmUtils.default_config canned three_paths st "How to load?" (Some "table t")
    = (st, LlmUtils.chat_llm LlmUtils.default_config canned
             (answer_prompt (default "" (Some "table t") +:+ PyStr.nl +:+ PyStr.nl
                             +:+ PyStr.join (PyStr.nl +:+ PyStr.nl) ctxs)
                            "How to load?") _SYSTEM).
Proof.
  intros st.
  apply (answer_question_with_documents EmbeddingUtils.int_dot Z.leb
           EmbeddingUtils.int_argsort length_encode LlmUtils.default_config canned three_paths st
           "How to load?" (Some "table t")
           [[22; 1]; [28; 1]; [30; 1]]%Z [12; 1]%Z []
           insertion_argsort_Z).
  - discriminate.
  - reflexivity.
  - reflexivity.
  - reflexivity.
Defined.

Lemma answer_question_query_failure_witness :
  let st := State ["COPY INTO loads files."] (Some [[22; 1]]%Z) in
  answer_question EmbeddingUtils.int_dot EmbeddingUtils.int_argsort unavailable
    LlmUtils.default_config canned three_paths st "What is a stage?"
    (Some "table t")
  = (st, LlmUtils.chat_llm LlmUtils.default_config canned
           (answer_prompt "table t" "What is a stage?") _SYSTEM).
Proof.
  intros st.
  apply (answer_question_query_failure EmbeddingUtils.int_dot EmbeddingUtils.int_argsort unavailable
           LlmUtils.default_config canned three_paths st "What is a stage?"
           (Some "table t") (RuntimeError "embedding model unavailable")).
  - discriminate.
  - reflexivity.
Defined.

Lemma answer_question_after_failed_load_witness :
  answer_question EmbeddingUtils.int_dot EmbeddingUtils.int_argsort unavailable
    LlmUtils.default_config canned one_doc
    (State ["ALTER TABLE t ADD COLUMN c VARCHAR;"] None) "What is a stage?" None
  = (State ["ALTER TABLE t ADD COLUMN c VARCHAR;"] None,
     LlmUtils.chat_llm LlmUtils.default_config canned
       (answer_prompt "" "What is a stage?") _SYSTEM).
Proof.
  apply (answer_question_after_failed_load EmbeddingUtils.int_dot EmbeddingUtils.int_argsort
           unavailable LlmUtils.default_config canned one_doc
           ["ALTER TABLE t ADD COLUMN c VARCHAR;"] "What is a stage?" None).
  discriminate.
Defined.

End chatbot_more_runs.
